(** * A shallow embedding of the cs33 shell (sh.c, parsing.c, lib_checks.c)

    The shell is a read-parse-dispatch loop around a global job list
    ([my_jobs]) and a global job-id counter ([next_job]).  The embedding
    keeps that shape:

    - C strings are [string]s, [char *] that may be [NULL] are
      [option string], the fixed [char *x[512]] arrays are lists of
      [option string];
    - C [int]s are [Z];
    - the two globals live in a [world] record together with the trace of
      system calls the process has issued so far;
    - what the operating system answers to the n-th system call is given
      by an oracle, so every statement below holds for every behaviour of
      the operating system;
    - [exit], [execv] and a null-pointer dereference end the function
      that runs them: they are the outcomes [Exit], [Exec] and [Fault] of
      the small monad [M]. *)

From Stdlib Require Import ZArith List String Ascii Bool Lia Sorted.
From Equations Require Import Equations.
Import ListNotations.

Local Open Scope string_scope.
Local Open Scope Z_scope.

(* ===================================================================== *)
(** ** C library pieces the sources rely on                              *)
(* ===================================================================== *)

Module CLib.

Definition nl : string := String (ascii_of_nat 10) EmptyString.
Definition nul : string := String (ascii_of_nat 0) EmptyString.
Definition tab : ascii := ascii_of_nat 9.
Definition slash : ascii := "/"%char.

(** [strncmp a b n == 0]: the first [n] characters agree, the comparison
    stopping at the terminating NUL of either string. *)
Fixpoint strncmp_eq (a b : string) (n : nat) : bool :=
  match n with
  | O => true
  | S n' =>
      match a, b with
      | EmptyString, EmptyString => true
      | String c a', String d b' =>
          if Ascii.eqb c d then strncmp_eq a' b' n' else false
      | _, _ => false
      end
  end.

(** The bytes [write(fd, lit, n)] sends when [lit] is a string literal:
    the first [n] bytes of the literal followed by its terminating NUL. *)
Definition c_bytes (lit : string) (n : nat) : string :=
  substring 0 n (lit ++ nul).

(** [strrchr s c]: the suffix of [s] that starts at the last [c]. *)
Fixpoint strrchr (s : string) (c : ascii) : option string :=
  match s with
  | EmptyString => None
  | String d s' =>
      match strrchr s' c with
      | Some r => Some r
      | None => if Ascii.eqb d c then Some s else None
      end
  end.

(** The delimiter set of every [strtok] call in parsing.c is "\t ". *)
Definition is_delim (c : ascii) : bool :=
  Ascii.eqb c tab || Ascii.eqb c " "%char.

(** Fields of a buffer between delimiters, empty fields included. *)
Fixpoint fields (s : string) : list string :=
  match s with
  | EmptyString => [EmptyString]
  | String c s' =>
      if is_delim c then EmptyString :: fields s'
      else match fields s' with
           | [] => [String c EmptyString]
           | t :: r => String c t :: r
           end
  end.

(** The sequence of tokens that [strtok(buffer, "\t ")] followed by
    repeated [strtok(NULL, "\t ")] returns before it returns NULL. *)
Definition tokenize (buffer : string) : list string :=
  filter (fun t => negb (String.eqb t EmptyString)) (fields buffer).

(** One [strtok(NULL, ...)] call on the tokens that are left. *)
Definition strtok_next (saved : list string) : option string * list string :=
  match saved with
  | [] => (None, [])
  | t :: r => (Some t, r)
  end.

(** Decimal digits of a natural number, as [%d] prints them. *)
Definition digit (n : nat) : ascii := ascii_of_nat (48 + n).

Fixpoint show_nat_fuel (fuel n : nat) (acc : string) : string :=
  match fuel with
  | O => acc
  | S f =>
      let acc' := String (digit (Nat.modulo n 10)) acc in
      match Nat.div n 10 with
      | O => acc'
      | q => show_nat_fuel f q acc'
      end
  end.

Definition show_nat (n : nat) : string := show_nat_fuel (S n) n EmptyString.

(** [%d] of an [int]. *)
Definition show_int (z : Z) : string :=
  if z <? 0 then "-" ++ show_nat (Z.to_nat (- z)) else show_nat (Z.to_nat z).

(** [snprintf(buf, size, ...)] keeps at most [size - 1] characters. *)
Definition snprintf (size : nat) (s : string) : string :=
  substring 0 (size - 1) s.

(** [strnlen] followed by [write]: the part of the string that is sent. *)
Definition strnlen_prefix (s : string) (n : nat) : string := substring 0 n s.

(** [atoi]: optional white space, optional sign, then decimal digits. *)
Definition is_space (c : ascii) : bool :=
  let n := nat_of_ascii c in
  Nat.eqb n 32 || (Nat.leb 9 n && Nat.leb n 13).

Definition digit_val (c : ascii) : option Z :=
  let n := nat_of_ascii c in
  if Nat.leb 48 n && Nat.leb n 57 then Some (Z.of_nat (n - 48)) else None.

Fixpoint atoi_digits (s : string) (acc : Z) : Z :=
  match s with
  | EmptyString => acc
  | String c s' =>
      match digit_val c with
      | Some d => atoi_digits s' (10 * acc + d)
      | None => acc
      end
  end.

Fixpoint skip_space (s : string) : string :=
  match s with
  | String c s' => if is_space c then skip_space s' else s
  | EmptyString => EmptyString
  end.

Definition atoi (s : string) : Z :=
  match skip_space s with
  | String "-"%char s' => - atoi_digits s' 0
  | String "+"%char s' => atoi_digits s' 0
  | s' => atoi_digits s' 0
  end.

(** Fixed-size arrays of [char *] and of [int]: reading and writing one
    slot.  A write outside the array is undefined in C; the model leaves
    the array as it is. *)
Fixpoint aset {A : Type} (l : list A) (i : nat) (v : A) : list A :=
  match l, i with
  | [], _ => []
  | _ :: r, O => v :: r
  | x :: r, S i' => x :: aset r i' v
  end.

Definition aget (l : list (option string)) (i : nat) : option string :=
  nth i l None.

Definition iget (l : list Z) (i : nat) : Z := nth i l 0.

(** [memset(a, 0, 512 * sizeof(char * ))]. *)
Definition zeroed : list (option string) := repeat None 512.

End CLib.
Import CLib.

(* ===================================================================== *)
(** ** System calls and their trace                                      *)
(* ===================================================================== *)

Definition STDIN_FILENO : Z := 0.
Definition STDOUT_FILENO : Z := 1.
Definition STDERR_FILENO : Z := 2.

(** Signal dispositions passed to [signal]. *)
Inductive sighandler := SIG_DFL | SIG_IGN.

(** One entry per call that leaves the process. *)
Inductive syscall :=
| SysWrite (fd : Z) (bytes : string)
| SysPerror (prefix : string)
| SysRead (fd : Z)
| SysFork
| SysGetpid
| SysGetpgrp
| SysSetpgid (pid pgid : Z)
| SysTcsetpgrp (fd pgrp : Z)
| SysSignal (signum : Z) (handler : sighandler)
| SysKill (pid sig : Z)
| SysWaitpid (pid options : Z)
| SysClose (fd : Z)
| SysOpen (path : option string) (flags mode : Z)
| SysExecv (path : option string) (argv : list (option string))
| SysChdir (path : option string)
| SysLink (oldpath newpath : option string)
| SysUnlink (path : option string).

(* ===================================================================== *)
(** ** parsing.c                                                         *)
(* ===================================================================== *)

Module Parsing.

(** What [parse] and its helpers read and write: [strtok]'s hidden
    position, the caller's three arrays, the local [offset], and the
    diagnostics written to standard error. *)
Record pstate := mkP {
  saved : list string;
  tokens : list (option string);
  argv : list (option string);
  offset : nat;
  redir : list Z;
  perr : list syscall
}.

Definition set_saved (sv : list string) (p : pstate) : pstate :=
  mkP sv (tokens p) (argv p) (offset p) (redir p) (perr p).
Definition set_token (i : nat) (v : option string) (p : pstate) : pstate :=
  mkP (saved p) (aset (tokens p) i v) (argv p) (offset p) (redir p) (perr p).
Definition set_argv (i : nat) (v : option string) (p : pstate) : pstate :=
  mkP (saved p) (tokens p) (aset (argv p) i v) (offset p) (redir p) (perr p).
Definition incr_offset (p : pstate) : pstate :=
  mkP (saved p) (tokens p) (argv p) (S (offset p)) (redir p) (perr p).
Definition set_redir (i : nat) (v : Z) (p : pstate) : pstate :=
  mkP (saved p) (tokens p) (argv p) (offset p) (aset (redir p) i v) (perr p).
Definition write_err (lit : string) (n : nat) (p : pstate) : pstate :=
  mkP (saved p) (tokens p) (argv p) (offset p) (redir p)
      (perr p ++ [SysWrite STDERR_FILENO (c_bytes lit n)])%list.

(** [id_rd_tok]: 0 for "<", 1 for ">", 2 for ">>", -1 otherwise. *)
Definition id_rd_tok (tok : option string) : Z :=
  match tok with
  | None => -1
  | Some t =>
      if strncmp_eq t "<" 2 then 0
      else if strncmp_eq t ">" 2 then 1
      else if strncmp_eq t ">>" 3 then 2
      else -1
  end.

Inductive set_result :=
| SetErr (p : pstate)
| SetOk (tok : option string) (p : pstate).

(** [set_tok]: [tok] is a redirection symbol of kind [mode]; store it
    and the file that follows in [tokens], note the file's index in
    [redir[mode]], and fetch the token after the file. *)
Definition set_tok (tok : option string) (mode : Z) (i : nat) (p : pstate)
  : set_result :=
  let p := set_token (i + offset p) tok p in
  let p := incr_offset p in
  let (file, sv) := strtok_next (saved p) in
  let p := set_saved sv p in
  match file with
  | None =>
      let p := if mode =? 0
               then write_err ("syntax error: no input file" ++ nl) 28 p
               else if (mode =? 1) || (mode =? 2)
               then write_err ("syntax error: no output file" ++ nl) 29 p
               else p in
      SetErr p
  | Some _ =>
      if 0 <=? id_rd_tok file then
        SetErr (write_err
                  ("syntax error: input file is a redirection symbol" ++ nl)
                  49 p)
      else if (mode =? 0) && negb (iget (redir p) 0 =? 0) then
        SetErr (write_err ("syntax error: multiple input files" ++ nl) 35 p)
      else if ((mode =? 1) || (mode =? 2))
              && negb (iget (redir p) 1 + iget (redir p) 2 =? 0) then
        SetErr (write_err ("syntax error: multiple output files" ++ nl) 36 p)
      else
        let p := set_token (i + offset p) file p in
        let p := set_redir (Z.to_nat mode) (Z.of_nat (i + offset p)) p in
        let p := incr_offset p in
        let (next, sv) := strtok_next (saved p) in
        let p := set_saved sv p in
        match next, i with
        | None, O =>
            SetErr (write_err ("error: redirects with no command" ++ nl) 33 p)
        | _, _ => SetOk next p
        end
  end.

Inductive redir_result :=
| RedirErr (p : pstate)                     (* the pointer 1 *)
| RedirTok (tok : option string) (p : pstate).

Definition inspect {A : Type} (a : A) : {b : A | a = b} :=
  exist _ a eq_refl.

(** [handle_redir]: while the current token is a redirection symbol,
    let [set_tok] consume it and its file. *)
Equations? handle_redir (tok : option string) (p : pstate) (i : nat)
  : redir_result by wf (List.length (saved p)) lt :=
  handle_redir tok p i with inspect (0 <=? id_rd_tok tok) := {
    | exist _ false _ => RedirTok tok p
    | exist _ true _ with inspect (set_tok tok (id_rd_tok tok) i p) := {
        | exist _ (SetErr p') _ => RedirErr p'
        | exist _ (SetOk tok' p') e => handle_redir tok' p' i } }.
Proof.
  unfold set_tok in e. destruct p as [sv tk av off rd pe]. simpl in *.
  destruct sv as [|f [|t r]]; simpl in *;
    repeat match type of e with
           | context [if ?b then _ else _] => destruct b
           | context [match ?x with O => _ | S _ => _ end] => destruct x
           end;
    inversion e; subst; simpl; lia.
Qed.

(** The tail of [parse]: [argv[i - 2]] is the last token; its comparison
    with "&" guards an expression statement, [redir[3] == 1], whose value
    is dropped. *)
Definition parse_finish (i : nat) (p : pstate) : Z * pstate :=
  match aget (argv p) (i - 2) with
  | None => (Z.of_nat i - 1, p)
  | Some last =>
      let p := if negb (strncmp_eq last "&" 2)
               then (let _unused := iget (redir p) 3 =? 1 in p)
               else p in
      (Z.of_nat i - 1, p)
  end.

(** The [for (i = 1; i < 512 && curr_tok != NULL; i++)] loop; [n] is
    [512 - i], the number of iterations the bound still allows. *)
Fixpoint parse_loop (n i : nat) (p : pstate) : Z * pstate :=
  match n with
  | O => parse_finish i p
  | S n' =>
      let (t, sv) := strtok_next (saved p) in
      match handle_redir t (set_saved sv p) i with
      | RedirErr p' => (-1, p')
      | RedirTok curr_tok p' =>
          let p' := set_token (i + offset p') curr_tok p' in
          let p' := set_argv i curr_tok p' in
          match curr_tok with
          | None => parse_finish (S i) p'
          | Some _ => parse_loop n' (S i) p'
          end
      end
  end.

(** [parse(buffer, tokens, argv, redir)]: the return value and the
    arrays as the call leaves them. *)
Definition parse (buffer : string) (tokens argv : list (option string))
           (redir : list Z) : Z * pstate :=
  let (first, sv) := strtok_next (tokenize buffer) in
  let p := mkP sv tokens argv 0 redir [] in
  match handle_redir first p 0 with
  | RedirErr p' => (-1, p')
  | RedirTok None p' => (-1, p')
  | RedirTok (Some curr_tok) p' =>
      let p' := set_token (offset p') (Some curr_tok) p' in
      let p' := set_argv 0 (Some curr_tok) p' in
      let p' := match curr_tok with
                | String c _ =>
                    if Ascii.eqb c slash
                    then set_argv 0 (strrchr curr_tok slash) p'
                    else p'
                | EmptyString => p'
                end in
      parse_loop 511 1 p'
  end.

End Parsing.


(* ===================================================================== *)
(** ** <sys/wait.h>, <signal.h>, <fcntl.h> (Linux, glibc)                *)
(* ===================================================================== *)

Module Wait.

Definition WEXITSTATUS (status : Z) : Z := Z.shiftr (Z.land status 65280) 8.
Definition WTERMSIG (status : Z) : Z := Z.land status 127.
Definition WSTOPSIG (status : Z) : Z := WEXITSTATUS status.
Definition WIFEXITED (status : Z) : bool := WTERMSIG status =? 0.

(** [(signed char) x] for [0 <= x < 256]. *)
Definition signed_char (x : Z) : Z := if 128 <=? x then x - 256 else x.

Definition WIFSIGNALED (status : Z) : bool :=
  0 <? Z.shiftr (signed_char (Z.land status 127 + 1)) 1.
Definition WIFSTOPPED (status : Z) : bool := Z.land status 255 =? 127.
Definition WIFCONTINUED (status : Z) : bool := status =? 65535.

Definition WNOHANG : Z := 1.
Definition WUNTRACED : Z := 2.
Definition WCONTINUED : Z := 8.

Definition SIGINT : Z := 2.
Definition SIGCONT : Z := 18.
Definition SIGTSTP : Z := 20.
Definition SIGTTOU : Z := 22.

Definition O_RDONLY : Z := 0.
Definition O_WRONLY : Z := 1.
Definition O_CREAT : Z := 64.
Definition O_TRUNC : Z := 512.
Definition O_APPEND : Z := 1024.

End Wait.
Import Wait.

(* ===================================================================== *)
(** ** jobs.h / jobs.c: the job list                                     *)
(* ===================================================================== *)

Module Jobs.

Inductive process_state_t := RUNNING | STOPPED.

Record job := mkJob {
  jid : Z;
  pid : Z;
  state : process_state_t;
  command : option string
}.

(** Modelled from the spec: jobs.c is not among the sources; the job list
    is the registry of section 4.1, a table of jobs kept in insertion
    order (oldest first). *)
Definition job_list_t := list job.

(** Modelled from the spec: [init_job_list] of jobs.c is missing; a fresh
    registry has no entries. *)
Definition init_job_list : job_list_t := [].

(** Modelled from the spec: [add_job] of jobs.c is missing; "inserts a new
    entry", and listing order is insertion order. *)
Definition add_job (l : job_list_t) (j p : Z) (s : process_state_t)
           (cmd : option string) : job_list_t :=
  (l ++ [mkJob j p s cmd])%list.

(** Modelled from the spec: [remove_job_pid] of jobs.c is missing;
    "deletes the entry for that process group if present". *)
Fixpoint remove_job_pid (l : job_list_t) (p : Z) : job_list_t :=
  match l with
  | [] => []
  | x :: r => if pid x =? p then r else x :: remove_job_pid r p
  end.

(** Modelled from the spec: [update_job_pid] of jobs.c is missing; sets
    the state of the entry for that process group, "no-op if the pgid is
    not registered". *)
Fixpoint update_job_pid (l : job_list_t) (p : Z) (s : process_state_t)
  : job_list_t :=
  match l with
  | [] => []
  | x :: r =>
      if pid x =? p then mkJob (jid x) (pid x) s (command x) :: r
      else x :: update_job_pid r p s
  end.

(** Modelled from the spec: [get_job_jid] of jobs.c is missing; the job id
    registered for a process group.  The spec's "none" is the negative
    [int] the callers in sh.c test for, -1. *)
Fixpoint get_job_jid (l : job_list_t) (p : Z) : Z :=
  match l with
  | [] => -1
  | x :: r => if pid x =? p then jid x else get_job_jid r p
  end.

(** Modelled from the spec: [get_job_pid] of jobs.c is missing; the
    process group registered under a job id, -1 for "none". *)
Fixpoint get_job_pid (l : job_list_t) (j : Z) : Z :=
  match l with
  | [] => -1
  | x :: r => if jid x =? j then pid x else get_job_pid r j
  end.

(** Modelled from the spec: [cleanup_job_list] of jobs.c is missing;
    "drops all entries". *)
Definition cleanup_job_list (l : job_list_t) : job_list_t := [].

(** Modelled from the spec: [jobs] of jobs.c is missing; one line
    "[<job_id>] (<pgid>) <state-word>" per job, in registry order. *)
Definition state_word (s : process_state_t) : string :=
  match s with RUNNING => "Running" | STOPPED => "Stopped" end.

Definition jobs_line (x : job) : string :=
  "[" ++ show_int (jid x) ++ "] (" ++ show_int (pid x) ++ ") "
      ++ state_word (state x) ++ nl.

Definition jobs_lines (l : job_list_t) : list syscall :=
  map (fun x => SysWrite STDOUT_FILENO (jobs_line x)) l.

End Jobs.
Import Jobs.

(* ===================================================================== *)
(** ** The process state and the monad of shell code                     *)
(* ===================================================================== *)

(** The globals of sh.c, the calls issued so far, and the kernel's queue
    of child status changes that no [waitpid] has reported yet. *)
Record world := mkW {
  my_jobs : job_list_t;
  next_job : Z;
  trace : list syscall;
  pending : list (Z * Z)            (* (pid, status), oldest first *)
}.

(** What the kernel answers: the return value of the n-th call, the
    status a blocking [waitpid] stores, the bytes a [read] delivers. *)
Record kernel := mkK {
  sys_ret : nat -> Z;
  sys_status : nat -> Z;
  sys_data : nat -> string
}.

Inductive outcome (A : Type) :=
| Return (a : A) (w : world)
| Exit (code : Z) (w : world)
| Exec (w : world)
| Fault (w : world).
Arguments Return {A} a w.
Arguments Exit {A} code w.
Arguments Exec {A} w.
Arguments Fault {A} w.

Definition M (A : Type) : Type := world -> outcome A.

Definition ret {A : Type} (a : A) : M A := fun w => Return a w.

Definition bind {A B : Type} (m : M A) (f : A -> M B) : M B :=
  fun w =>
    match m w with
    | Return a w' => f a w'
    | Exit c w' => Exit c w'
    | Exec w' => Exec w'
    | Fault w' => Fault w'
    end.

Declare Scope shell_scope.
Delimit Scope shell_scope with sh.
Notation "x <- m ;; f" := (bind m (fun x => f))
  (at level 61, m at next level, right associativity) : shell_scope.
Notation "m ;;; f" := (bind m (fun _ => f))
  (at level 61, right associativity) : shell_scope.
Local Open Scope shell_scope.

Definition final {A : Type} (o : outcome A) : world :=
  match o with
  | Return _ w | Exit _ w | Exec w | Fault w => w
  end.

Definition get_world : M world := fun w => Return w w.
Definition exit_ {A : Type} (code : Z) : M A := fun w => Exit code w.
Definition fault {A : Type} : M A := fun w => Fault w.

Definition set_jobs (f : job_list_t -> job_list_t) : M unit :=
  fun w => Return tt (mkW (f (my_jobs w)) (next_job w) (trace w) (pending w)).

(** [int] arithmetic: the value an [int] holds after a result that does
    not fit wraps around (what gcc's code does; C leaves it undefined). *)
Definition wrap_int (z : Z) : Z := (z + 2147483648) mod 4294967296 - 2147483648.
Definition INT_MAX : Z := 2147483647.

(** [next_job++]. *)
Definition incr_next_job : M unit :=
  fun w => Return tt (mkW (my_jobs w) (wrap_int (next_job w + 1))
                          (trace w) (pending w)).

Section Shell.

Variable k : kernel.

(** A system call: it is appended to the trace and the kernel's answer
    for that position is its return value. *)
Definition sys (c : syscall) : M Z :=
  fun w => Return (sys_ret k (List.length (trace w)))
                  (mkW (my_jobs w) (next_job w) (trace w ++ [c])%list (pending w)).

(** A blocking [waitpid(pid, &status, options)]. *)
Definition sys_waitpid (p options : Z) : M (Z * Z) :=
  fun w => Return (sys_ret k (List.length (trace w)),
                   sys_status k (List.length (trace w)))
                  (mkW (my_jobs w) (next_job w)
                       (trace w ++ [SysWaitpid p options])%list (pending w)).

(** [waitpid(-1, &status, WNOHANG | WUNTRACED | WCONTINUED)]: the oldest
    unreported status change if there is one, else 0 or -1. *)
Definition sys_waitpid_nohang : M (Z * Z) :=
  fun w =>
    let n := List.length (trace w) in
    let t := (trace w ++ [SysWaitpid (-1)
                 (Z.lor WNOHANG (Z.lor WUNTRACED WCONTINUED))])%list in
    match pending w with
    | [] => Return (if sys_ret k n <? 0 then -1 else 0, 0)
                   (mkW (my_jobs w) (next_job w) t [])
    | ps :: q => Return ps (mkW (my_jobs w) (next_job w) t q)
    end.

(** [read(STDIN_FILENO, buf, 1024)]: the count and the bytes. *)
Definition sys_read : M (Z * string) :=
  fun w => Return (sys_ret k (List.length (trace w)),
                   sys_data k (List.length (trace w)))
                  (mkW (my_jobs w) (next_job w)
                       (trace w ++ [SysRead STDIN_FILENO])%list (pending w)).

(* --------------------------------------------------------------------- *)
(** *** lib_checks.c                                                     *)
(* --------------------------------------------------------------------- *)

Definition die {A : Type} (what : string) : M A :=
  sys (SysPerror what) ;;;
  set_jobs cleanup_job_list ;;;
  exit_ 1.

Definition checked_stdwrite (str : string) : M unit :=
  r <- sys (SysWrite STDOUT_FILENO (strnlen_prefix str 1024)) ;;
  if r <? 0 then die "write:" else ret tt.

Definition checked_close (fd : Z) : M unit :=
  r <- sys (SysClose fd) ;;
  if r <? 0 then die "close" else ret tt.

Definition checked_open (pathname : option string) (flags mode : Z) : M unit :=
  r <- sys (SysOpen pathname flags mode) ;;
  if r <? 0 then die "open" else ret tt.

Definition checked_signal (signum : Z) (handler : sighandler) : M unit :=
  r <- sys (SysSignal signum handler) ;;
  if r <? 0 then die "signal" else ret tt.

Definition checked_setpgrp (pgrp : Z) : M unit :=
  r <- sys (SysTcsetpgrp STDIN_FILENO pgrp) ;;
  if r <? 0 then die "tcsetgrp" else ret tt.

(** Returns the pair of [waitpid]'s result and the status it stored. *)
Definition checked_waitpid (p options : Z) : M (Z * Z) :=
  rs <- sys_waitpid p options ;;
  if fst rs <? 0 then die "wait" else ret rs.

(* --------------------------------------------------------------------- *)
(** *** sh.c                                                             *)
(* --------------------------------------------------------------------- *)

(** [write(STDERR_FILENO, lit, n)], result ignored. *)
Definition write_stderr (lit : string) (n : nat) : M unit :=
  sys (SysWrite STDERR_FILENO (c_bytes lit n)) ;;; ret tt.

(** [perror(what)]. *)
Definition perror (what : string) : M unit :=
  sys (SysPerror what) ;;; ret tt.

(** The line [handle_signals] formats into [output[64]]. *)
Definition signal_line (job pgid : Z) (act : string) (sig : Z) : string :=
  snprintf 64 ("[" ++ show_int job ++ "] (" ++ show_int pgid ++ ") "
                   ++ act ++ " " ++ show_int sig ++ nl).

(** [handle_signals(status, pgid, cmd)]: report how a process the shell
    waited for in the foreground was terminated or stopped. *)
Definition handle_signals (status pgid : Z) (cmd : option string) : M unit :=
  w <- get_world ;;
  let job := get_job_pid (my_jobs w) pgid in
  r <- (if WIFSIGNALED status then
          ret (WTERMSIG status, "terminated by signal",
               if job <? 0 then next_job w else job)
        else if WIFSTOPPED status then
          if job <? 0 then
            set_jobs (fun l => add_job l (next_job w) pgid STOPPED cmd) ;;;
            incr_next_job ;;;
            ret (WSTOPSIG status, "suspended by signal", next_job w)
          else ret (WSTOPSIG status, "suspended by signal", job)
        else ret (0, "", job)) ;;
  let '(sig, act, job) := r in
  if negb (sig =? 0)
  then checked_stdwrite (signal_line job pgid act sig)
  else ret tt.

(** The line [reap] formats into [output[128]]. *)
Definition reap_line (job pgid : Z) (act : string) : string :=
  snprintf 128 ("[" ++ show_int job ++ "] (" ++ show_int pgid ++ ") "
                    ++ act ++ nl).

(** [reap(status, pgid)]: one status change delivered by the polling
    [waitpid] of the main loop. *)
Definition reap (status pgid : Z) : M unit :=
  w <- get_world ;;
  let job := get_job_jid (my_jobs w) pgid in
  r <- (if WIFSIGNALED status then
          set_jobs (fun l => remove_job_pid l pgid) ;;;
          ret (WTERMSIG status,
               snprintf 32 ("terminated by signal "
                              ++ show_int (WTERMSIG status)))
        else if WIFSTOPPED status then
          set_jobs (fun l => update_job_pid l pgid STOPPED) ;;;
          ret (WSTOPSIG status,
               snprintf 32 ("suspended by signal "
                              ++ show_int (WSTOPSIG status)))
        else if WIFCONTINUED status then
          set_jobs (fun l => update_job_pid l pgid RUNNING) ;;;
          ret (1, snprintf 16 "resumed")
        else if WIFEXITED status then
          set_jobs (fun l => remove_job_pid l pgid) ;;;
          ret (1, snprintf 64 ("terminated with exit status "
                                 ++ show_int (WEXITSTATUS status)))
        else ret (0, "")) ;;
  let '(code, act) := r in
  if negb (code =? 0)
  then checked_stdwrite (reap_line job pgid act)
  else ret tt.

Definition change_def_handlers (handler : sighandler) : M unit :=
  checked_signal SIGINT handler ;;;
  checked_signal SIGTSTP handler ;;;
  checked_signal SIGTTOU handler.

(** [*s != '%']: the first byte of a C string, NUL for the empty one. *)
Definition starts_with_percent (s : string) : bool :=
  match s with
  | String c _ => Ascii.eqb c "%"%char
  | EmptyString => false
  end.

(** [s + 1] for a [char *s]. *)
Definition str_tail (s : string) : string :=
  match s with
  | String _ r => r
  | EmptyString => EmptyString
  end.

(** The [fg] and [bg] branches of [exec_builtins] are the same code up to
    the job lookup (sh.c writes it out twice): the argument count, the
    leading '%', [atoi] of the rest, [get_job_pid].  [found] is what the
    branch does with the pid. *)
Definition with_job (name : string) (argv : list (option string)) (argc : Z)
           (found : Z -> M unit) : M unit :=
  if negb (argc =? 2) then write_stderr (name ++ ": syntax error" ++ nl) 18
  else
    match aget argv 1 with
    | None => fault
    | Some a1 =>
        if negb (starts_with_percent a1)
        then write_stderr (name ++ ": job input does not begin with %" ++ nl) 37
        else
          let jid := atoi (str_tail a1) in
          w <- get_world ;;
          let pid := get_job_pid (my_jobs w) jid in
          if pid <? 0 then write_stderr ("job not found" ++ nl) 15
          else found pid
    end.

(** [exec_builtins(argv, argc)]: 0 when [argv[0]] names a builtin (which
    has then been run), -1 when it does not. *)
Definition exec_builtins (argv : list (option string)) (argc : Z) : M Z :=
  match aget argv 0 with
  | None => fault
  | Some cmd =>
      if strncmp_eq cmd "exit" 5 then
        if negb (argc =? 1) then
          write_stderr ("exit: syntax error" ++ nl) 20 ;;; ret 0
        else
          set_jobs cleanup_job_list ;;; exit_ 0
      else if strncmp_eq cmd "cd" 3 then
        (if negb (argc =? 2) then write_stderr ("cd: syntax error" ++ nl) 17
         else
           r <- sys (SysChdir (aget argv 1)) ;;
           if r <? 0 then perror "cd" else ret tt) ;;;
        ret 0
      else if strncmp_eq cmd "ln" 3 then
        (if negb (argc =? 3) then write_stderr ("ln: syntax error" ++ nl) 17
         else ret tt) ;;;
        r <- sys (SysLink (aget argv 1) (aget argv 2)) ;;
        (if r <? 0 then perror "ln" else ret tt) ;;;
        ret 0
      else if strncmp_eq cmd "rm" 3 then
        (if negb (argc =? 2) then write_stderr ("rm: syntax error" ++ nl) 17
         else
           r <- sys (SysUnlink (aget argv 1)) ;;
           if r <? 0 then perror "rm" else ret tt) ;;;
        ret 0
      else if strncmp_eq cmd "jobs" 5 then
        (if negb (argc =? 1) then write_stderr ("jobs: syntax error" ++ nl) 20
         else
           w <- get_world ;;
           fold_right (fun c m => sys c ;;; m) (ret tt)
                      (jobs_lines (my_jobs w))) ;;;
        ret 0
      else if strncmp_eq cmd "fg" 3 then
        with_job "fg" argv argc
          (fun pid =>
             sys (SysKill pid SIGCONT) ;;;
             set_jobs (fun l => update_job_pid l pid RUNNING) ;;;
             rs <- checked_waitpid pid WUNTRACED ;;
             handle_signals (snd rs) pid None) ;;;
        ret 0
      else if strncmp_eq cmd "bg" 3 then
        with_job "bg" argv argc
          (fun pid =>
             sys (SysKill pid SIGCONT) ;;;
             set_jobs (fun l => update_job_pid l pid RUNNING)) ;;;
        ret 0
      else ret (-1)
  end.

(** The loop of [run_prog] that looks for the program's path among the
    tokens. *)
Definition f_index_step (f_index r : Z) : Z :=
  if (r =? 1) || ((f_index =? 1) && (r =? 3)) then f_index + 2 else f_index.

Definition find_f_index (redir : list Z) : Z :=
  fold_left f_index_step [iget redir 0; iget redir 1; iget redir 2] 0.

(** An [argv] as [execv] reads it: up to the first NULL. *)
Fixpoint c_vector (argv : list (option string)) : list (option string) :=
  match argv with
  | Some a :: r => Some a :: c_vector r
  | _ => []
  end.

(** The child's side of the [fork] in [run_prog]. *)
Definition run_child (argv tokens : list (option string)) (redir : list Z)
           (bg f_index : Z) : M Z :=
  pid <- sys SysGetpid ;;
  (if pid <? 0 then perror "getpid" ;;; exit_ 1
   else
     r <- sys (SysSetpgid pid pid) ;;
     if r <? 0 then perror "setpgid" ;;; exit_ 1 else ret tt) ;;;
  (if bg =? 0 then checked_setpgrp pid else ret tt) ;;;
  change_def_handlers SIG_DFL ;;;
  (if negb (iget redir 0 =? 0) then
     checked_close STDIN_FILENO ;;;
     checked_open (aget tokens (Z.to_nat (iget redir 0))) O_RDONLY 0
   else ret tt) ;;;
  (if negb (iget redir 1 =? 0) then
     checked_close STDOUT_FILENO ;;;
     checked_open (aget tokens (Z.to_nat (iget redir 1)))
                  (Z.lor O_WRONLY (Z.lor O_TRUNC O_CREAT)) 384
   else if negb (iget redir 2 =? 0) then
     checked_close STDOUT_FILENO ;;;
     checked_open (aget tokens (Z.to_nat (iget redir 2)))
                  (Z.lor O_WRONLY (Z.lor O_APPEND O_CREAT)) 384
   else ret tt) ;;;
  match aget argv 0 with
  | None => fault
  | Some a0 =>
      let argv := if strncmp_eq a0 "/" 1
                  then aset argv 0 (Some (str_tail a0)) else argv in
      r <- sys (SysExecv (aget tokens (Z.to_nat f_index)) (c_vector argv)) ;;
      if r <? 0 then perror "execv" ;;; exit_ 1 else Exec
  end.

(** The line printed for a job started in the background. *)
Definition launch_line (job pid : Z) : string :=
  snprintf 32 ("[" ++ show_int job ++ "] (" ++ show_int pid ++ ")" ++ nl).

(** [run_prog(argv, tokens, redir)]. *)
Definition run_prog (argv tokens : list (option string)) (redir : list Z)
  : M Z :=
  let bg := iget redir 3 in
  let f_index := find_f_index redir in
  pid <- sys SysFork ;;
  if pid =? 0 then run_child argv tokens redir bg f_index
  else
    (if negb (bg =? 0) then
       w <- get_world ;;
       set_jobs (fun l => add_job l (next_job w) pid RUNNING
                                  (aget tokens (Z.to_nat f_index))) ;;;
       incr_next_job ;;;
       w' <- get_world ;;
       checked_stdwrite (launch_line (get_job_jid (my_jobs w') pid) pid)
     else
       rs <- checked_waitpid pid WUNTRACED ;;
       handle_signals (snd rs) pid (aget tokens (Z.to_nat f_index))) ;;;
    old <- sys SysGetpgrp ;;
    (if old <? 0 then die "getpgid" else ret tt) ;;;
    checked_setpgrp old ;;;
    ret 0.

(** The polling loop at the top of every iteration of [main]:
    [while ((pid = waitpid(-1, &status, WNOHANG | ...)) > 0) reap(status, pid);]
    The recursion follows the kernel's queue as it stood on entry: every
    positive answer takes one entry off it. *)
Fixpoint drain_loop (q : list (Z * Z)) : M unit :=
  ps <- sys_waitpid_nohang ;;
  if 0 <? fst ps then
    reap (snd ps) (fst ps) ;;;
    match q with
    | [] => ret tt
    | _ :: q' => drain_loop q'
    end
  else ret tt.

Definition drain : M unit := fun w => drain_loop (pending w) w.

(** The C string in [buf] once [main] has terminated what [read] put
    there. *)
Fixpoint until_nul (s : string) : string :=
  match s with
  | EmptyString => EmptyString
  | String c r => if Ascii.eqb c (ascii_of_nat 0) then EmptyString
                  else String c (until_nul r)
  end.

Definition last_is_newline (s : string) : bool :=
  match String.get (String.length s - 1) s with
  | Some c => Ascii.eqb c (ascii_of_nat 10)
  | None => false
  end.

Definition emit (cs : list syscall) : M unit :=
  fun w => Return tt (mkW (my_jobs w) (next_job w) (trace w ++ cs)%list
                          (pending w)).

(** The buffer as a C string once [main] has put the terminating NUL:
    after the data when it does not end in a newline, over the newline
    otherwise; [None] is the [continue] for a line that is only a
    newline. *)
Definition terminate_buffer (rd_state : Z) (data : string) : option string :=
  if negb (last_is_newline data) then Some (until_nul data)
  else if rd_state =? 1 then None
  else Some (until_nul (substring 0 (Z.to_nat rd_state - 1) data)).

(** The end of the loop body: builtins first, programs otherwise. *)
Definition dispatch (argv tokens : list (option string)) (redir : list Z)
           (argc : Z) : M unit :=
  r <- exec_builtins argv argc ;;
  if r <? 0 then run_prog argv tokens redir ;;; ret tt else ret tt.

(** One turn of the [do ... while (1)] of [main]; [Return] asks for
    another turn, [Exit] is [main] returning.  [prompt] is the macro
    PROMPT. *)
Definition main_iteration (prompt : bool) : M unit :=
  change_def_handlers SIG_IGN ;;;
  drain ;;;
  (if prompt then checked_stdwrite "mysh> " else ret tt) ;;;
  rd <- sys_read ;;
  let rd_state := fst rd in
  let data := substring 0 (Z.to_nat rd_state) (snd rd) in
  if rd_state <? 0 then
    perror "read" ;;; set_jobs cleanup_job_list ;;; exit_ 1
  else if rd_state =? 0 then
    set_jobs cleanup_job_list ;;; exit_ 0
  else
    match terminate_buffer rd_state data with
    | None => ret tt
    | Some buf =>
        let '(argc, p) := Parsing.parse buf zeroed zeroed [0;0;0;0] in
        emit (Parsing.perr p) ;;;
        if argc <? 0 then ret tt
        else dispatch (Parsing.argv p) (Parsing.tokens p) (Parsing.redir p) argc
    end.

(** [main] before its loop: [my_jobs = init_job_list()], [next_job = 1]. *)
Definition initial_world : world := mkW init_job_list 1 [] [].

End Shell.

(* ===================================================================== *)
(** ** Shell sessions                                                    *)
(* ===================================================================== *)

(** What can happen to the job list between two prompts: the kernel
    queues status changes of children, the main loop polls them, a
    builtin runs, a program is launched, or a whole turn of [main] runs. *)
Inductive op :=
| OpArrive (q : list (Z * Z))
| OpDrain
| OpBuiltin (argv : list (option string)) (argc : Z)
| OpRunProg (argv tokens : list (option string)) (redir : list Z)
| OpMain (prompt : bool).

Definition arrive (q : list (Z * Z)) : M unit :=
  fun w => Return tt (mkW (my_jobs w) (next_job w) (trace w)
                          (pending w ++ q)%list).

Definition exec_op (k : kernel) (o : op) : M unit :=
  match o with
  | OpArrive q => arrive q
  | OpDrain => drain k
  | OpBuiltin argv argc => exec_builtins k argv argc ;;; ret tt
  | OpRunProg argv tokens redir => run_prog k argv tokens redir ;;; ret tt
  | OpMain prompt => main_iteration k prompt
  end.

(** The steps of a session: the world before and after each operation,
    up to and including the one that ends the process. *)
Fixpoint session (k : kernel) (ops : list op) (w : world)
  : list (world * world) :=
  match ops with
  | [] => []
  | o :: r =>
      match exec_op k o w with
      | Return _ w' => (w, w') :: session k r w'
      | Exit _ w' | Exec w' | Fault w' => [(w, w')]
      end
  end.

(** The jobs a step registered: the entries of the job list after the
    step whose (job id, process group) was not in the list before. *)
Definition same_job (a b : job) : bool := (jid a =? jid b) && (pid a =? pid b).

Definition registered_by (w w' : world) : list job :=
  filter (fun j => negb (existsb (same_job j) (my_jobs w))) (my_jobs w').

Definition assigned_ids (steps : list (world * world)) : list Z :=
  flat_map (fun s => map jid (registered_by (fst s) (snd s))) steps.

(** [l'] is [l] after removals and state updates: entries keep their
    order, job id and process group. *)
Inductive shrinks : job_list_t -> job_list_t -> Prop :=
| shrinks_nil : shrinks [] []
| shrinks_keep x y l l' :
    jid x = jid y -> pid x = pid y -> shrinks l l' ->
    shrinks (x :: l) (y :: l')
| shrinks_drop x l l' : shrinks l l' -> shrinks (x :: l) l'.

(** The two ways a piece of shell code may change the globals: without
    registering a job, or registering at most one, under [next_job]. *)
Definition quiet (w w' : world) : Prop :=
  next_job w' = next_job w /\ shrinks (my_jobs w) (my_jobs w').

Definition registers (w w' : world) : Prop :=
  quiet w w' \/
  (next_job w' = wrap_int (next_job w + 1) /\
   exists p s c, shrinks (add_job (my_jobs w) (next_job w) p s c) (my_jobs w')).

Definition sat {A : Type} (m : M A) (R : world -> world -> Prop) : Prop :=
  forall w, R w (final (m w)).

(** The job list is in order: ids strictly increasing and all below the
    counter. *)
Definition reg_ok (w : world) : Prop :=
  StronglySorted Z.lt (map jid (my_jobs w)) /\
  Forall (fun j => j < next_job w) (map jid (my_jobs w)).

(** The state recorded for a process group, when it has an entry. *)
Fixpoint state_of (l : job_list_t) (p : Z) : option process_state_t :=
  match l with
  | [] => None
  | x :: r => if pid x =? p then Some (state x) else state_of r p
  end.

(** What [checked_stdwrite line] leaves behind when it runs in [w] with
    the job list already changed to [l]: the line is written; the shell
    goes on, or, if the write failed, exits with status 1 after the
    clean-up. *)
Definition after_write (k : kernel) (w : world) (l : job_list_t)
           (line : string) : outcome unit :=
  let out := SysWrite STDOUT_FILENO (strnlen_prefix line 1024) in
  if sys_ret k (List.length (trace w)) <? 0
  then Exit 1 (mkW [] (next_job w)
                   ((trace w ++ [out]) ++ [SysPerror "write:"])%list
                   (pending w))
  else Return tt (mkW l (next_job w) (trace w ++ [out])%list (pending w)).

(** A kernel whose calls all succeed with 0, and a world in which job 1
    is process group 100, stopped. *)
Definition quiet_kernel : kernel :=
  mkK (fun _ => 0) (fun _ => 0) (fun _ => EmptyString).

Definition one_job_world : world :=
  mkW [mkJob 1 100 STOPPED (Some "/bin/sleep")] 2 [] [].

(** The parser state a [set_tok] or [handle_redir] call ends in, and the
    slot [redir[3]] of a parser state. *)
Definition set_state (r : Parsing.set_result) : Parsing.pstate :=
  match r with Parsing.SetErr p | Parsing.SetOk _ p => p end.

Definition redir_state (r : Parsing.redir_result) : Parsing.pstate :=
  match r with Parsing.RedirErr p | Parsing.RedirTok _ p => p end.

Definition redir3 (p : Parsing.pstate) : option Z :=
  nth_error (Parsing.redir p) 3.
Arguments redir3 : simpl never.

Definition is_tcsetpgrp (c : syscall) : bool :=
  match c with SysTcsetpgrp _ _ => true | _ => false end.

Definition two_pending_world : world :=
  mkW [mkJob 1 100 RUNNING (Some "/bin/sleep");
       mkJob 2 200 RUNNING (Some "/bin/cat")] 3 [] [(100, 5247); (200, 9)].

(** A kernel that answers the n-th call with 100 + n (so every [fork]
    yields a new pid and no call fails) and reports every child it is
    asked to wait for as stopped by signal 20; and a session in which a
    job is started in the background, one is stopped in the foreground,
    the first is killed and reaped, and a third is started. *)
Definition busy_kernel : kernel :=
  mkK (fun n => 100 + Z.of_nat n) (fun _ => 5247) (fun _ => EmptyString).

Definition sample_session : list op :=
  [ OpRunProg [Some "/sleep"; Some "9"; Some "&"; None]
              [Some "/bin/sleep"; Some "9"; Some "&"; None] [0;0;0;1];
    OpRunProg [Some "/cat"; None] [Some "/bin/cat"; None] [0;0;0;0];
    OpArrive [(100, 9)];
    OpDrain;
    OpRunProg [Some "/ls"; Some "&"; None]
              [Some "/bin/ls"; Some "&"; None] [0;0;0;1] ].

(** A piece of code that, when it returns, returns 0. *)
Definition returns_zero (m : M Z) : Prop :=
  forall w r w', m w = Return r w' -> r = 0.

(** A kernel for one turn of [main] without prompt: the fifth call, the
    [read], delivers the 17 bytes of "/bin/sleep 100 &" and a newline;
    every other call answers 77 (so [fork] yields pid 77) and the child
    waited for has exited with status 0. *)
Definition ampersand_kernel : kernel :=
  mkK (fun n => if Nat.eqb n 4 then 17 else 77)
      (fun _ => 0)
      (fun _ => "/bin/sleep 100 &" ++ nl).

(** A buffer that holds nothing but the delimiters of [strtok]. *)
Fixpoint all_delims (s : string) : bool :=
  match s with
  | EmptyString => true
  | String c r => is_delim c && all_delims r
  end.

(** Consecutive slots of an array written one after the other. *)
Fixpoint aset_seq {A : Type} (l : list A) (i : nat) (vs : list A) : list A :=
  match vs with
  | [] => l
  | v :: r => aset_seq (aset l i v) (S i) r
  end.

Definition not_redir_symbol (t : string) : Prop :=
  t <> "<" /\ t <> ">" /\ t <> ">>".

Definition starts_with_slash (s : string) : bool :=
  match s with
  | String c _ => Ascii.eqb c slash
  | EmptyString => false
  end.

(** The output and the append slot of [redir] are not both taken. *)
Definition redir_wf (rd : list Z) : Prop :=
  0 <= iget rd 1 /\ 0 <= iget rd 2 /\ (iget rd 1 = 0 \/ iget rd 2 = 0).

(** A token list whose last token is a redirection symbol. *)
Definition ends_in_redir (l : list string) : Prop :=
  exists pre s, l = (pre ++ [s])%list /\ 0 <= Parsing.id_rd_tok (Some s).

(** The names [exec_builtins] compares [argv[0]] with. *)
Definition builtin_names : list string :=
  ["exit"; "cd"; "ln"; "rm"; "jobs"; "fg"; "bg"].

Definition is_waitpid (c : syscall) : bool :=
  match c with SysWaitpid _ _ => true | _ => false end.

Definition is_return {A : Type} (o : outcome A) : bool :=
  match o with Return _ _ => true | _ => false end.


(** Code that ends the process or replaces its image, whatever happens. *)
Definition never_returns {A : Type} (m : M A) : Prop :=
  forall w, is_return (m w) = false.


(** An outcome that, if it is an [exit], has the job list cleaned up. *)
Definition clean_exit {A : Type} (o : outcome A) : Prop :=
  match o with
  | Exit _ w' => my_jobs w' = []
  | _ => True
  end.

Definition exits_clean {A : Type} (m : M A) : Prop :=
  forall w, clean_exit (m w).

(** The [close]/[open] calls the child of [run_prog] makes for a
    redirection plan, in the order it makes them. *)
Definition redirection_calls (tokens : list (option string)) (redir : list Z)
  : list syscall :=
  ((if negb (iget redir 0 =? 0)
    then [SysClose STDIN_FILENO;
          SysOpen (aget tokens (Z.to_nat (iget redir 0))) O_RDONLY 0]
    else []) ++
   (if negb (iget redir 1 =? 0)
    then [SysClose STDOUT_FILENO;
          SysOpen (aget tokens (Z.to_nat (iget redir 1)))
                  (Z.lor O_WRONLY (Z.lor O_TRUNC O_CREAT)) 384]
    else if negb (iget redir 2 =? 0)
    then [SysClose STDOUT_FILENO;
          SysOpen (aget tokens (Z.to_nat (iget redir 2)))
                  (Z.lor O_WRONLY (Z.lor O_APPEND O_CREAT)) 384]
    else []))%list.

(** A kernel whose calls all answer 77 and whose children have all
    exited with status 0. *)
Definition calm_kernel : kernel :=
  mkK (fun _ => 77) (fun _ => 0) (fun _ => EmptyString).

Definition sleep_argv : list (option string) :=
  [Some "/sleep"; Some "9"; None].

Definition sleep_tokens : list (option string) :=
  [Some "/bin/sleep"; Some "9"; None].

(** How often the token [s] occurs among [l]. *)
Definition count_tok (s : string) (l : list string) : nat :=
  count_occ string_dec l s.

(** 1 when slot [m] of [redir] holds an index, 0 when it holds 0. *)
Definition slot_taken (rd : list Z) (m : nat) : nat :=
  if iget rd m =? 0 then 0%nat else 1%nat.

(** The tokens [parse] has not looked at yet: the current one, if any,
    and those [strtok] still holds. *)
Definition pending_tokens (tok : option string) (sv : list string)
  : list string :=
  match tok with Some t => t :: sv | None => sv end.

(** Every redirection symbol of the line is either still to come or
    recorded in its slot of [redir]. *)
Definition redir_accounts (c0 c1 c2 : nat) (l : list string) (rd : list Z)
  : Prop :=
  (3 <= List.length rd)%nat /\ redir_wf rd /\
  c0 = (count_tok "<" l + slot_taken rd 0)%nat /\
  c1 = (count_tok ">" l + slot_taken rd 1)%nat /\
  c2 = (count_tok ">>" l + slot_taken rd 2)%nat.

(* ===================================================================== *)
(** * Properties                                                         *)
(* ===================================================================== *)

(** ** Wait statuses *)

Lemma land_127_range s : 0 <= Z.land s 127 < 128.
Proof.
  split.
  - apply Z.land_nonneg. right. lia.
  - assert (H : Z.land s 127 = s mod 2 ^ 7) by (apply (Z.land_ones s 7); lia).
    rewrite H. apply Z.mod_pos_bound. lia.
Qed.

Lemma land_255_127 s : Z.land (Z.land s 255) 127 = Z.land s 127.
Proof. rewrite <- Z.land_assoc. reflexivity. Qed.

Lemma signaled_termsig s : WIFSIGNALED s = true -> 1 <= WTERMSIG s <= 126.
Proof.
  unfold WIFSIGNALED, WTERMSIG, signed_char. intros H.
  pose proof (land_127_range s) as R.
  destruct (Z.leb_spec 128 (Z.land s 127 + 1)).
  - assert (E : Z.land s 127 = 127) by lia. rewrite E in H. discriminate.
  - destruct (Z.eq_dec (Z.land s 127) 0) as [E|E].
    + rewrite E in H. discriminate.
    + lia.
Qed.

Lemma stopped_not_signaled s : WIFSTOPPED s = true -> WIFSIGNALED s = false.
Proof.
  unfold WIFSTOPPED, WIFSIGNALED. intros H.
  apply Z.eqb_eq in H.
  rewrite <- land_255_127, H. reflexivity.
Qed.

Lemma exited_not_others s :
  WIFEXITED s = true ->
  WIFSIGNALED s = false /\ WIFSTOPPED s = false /\ WIFCONTINUED s = false.
Proof.
  unfold WIFEXITED, WTERMSIG. intros H. apply Z.eqb_eq in H.
  repeat split.
  - unfold WIFSIGNALED. rewrite H. reflexivity.
  - unfold WIFSTOPPED. apply Z.eqb_neq. intros E.
    rewrite <- land_255_127, E in H. discriminate.
  - unfold WIFCONTINUED. apply Z.eqb_neq. intros E. subst s. discriminate.
Qed.

(** ** The job list *)

Lemma get_job_jid_absent l p :
  ~ In p (map pid l) -> get_job_jid l p = -1.
Proof.
  induction l as [|x r IH]; simpl; intros H; [reflexivity|].
  destruct (Z.eqb_spec (pid x) p) as [E|E].
  - exfalso. apply H. left. exact E.
  - apply IH. intros I. apply H. right. exact I.
Qed.

Lemma remove_job_pid_absent l p :
  ~ In p (map pid l) -> remove_job_pid l p = l.
Proof.
  induction l as [|x r IH]; simpl; intros H; [reflexivity|].
  destruct (Z.eqb_spec (pid x) p) as [E|E].
  - exfalso. apply H. left. exact E.
  - f_equal. apply IH. intros I. apply H. right. exact I.
Qed.

Lemma update_job_pid_absent l p s :
  ~ In p (map pid l) -> update_job_pid l p s = l.
Proof.
  induction l as [|x r IH]; simpl; intros H; [reflexivity|].
  destruct (Z.eqb_spec (pid x) p) as [E|E].
  - exfalso. apply H. left. exact E.
  - f_equal. apply IH. intros I. apply H. right. exact I.
Qed.


Lemma update_job_pid_keys l p s :
  map jid (update_job_pid l p s) = map jid l /\
  map pid (update_job_pid l p s) = map pid l /\
  map command (update_job_pid l p s) = map command l.
Proof.
  induction l as [|x r IH]; simpl; [auto|].
  destruct (Z.eqb_spec (pid x) p); simpl.
  - auto.
  - destruct IH as (A & B & C). rewrite A, B, C. auto.
Qed.

Lemma update_job_pid_state l p s q :
  state_of (update_job_pid l p s) q =
  if q =? p then match state_of l p with Some _ => Some s | None => None end
  else state_of l q.
Proof.
  induction l as [|x r IH]; simpl.
  - destruct (q =? p); reflexivity.
  - destruct (Z.eqb_spec (pid x) p) as [E|E]; simpl.
    + destruct (Z.eqb_spec q p) as [F|F].
      * subst q. rewrite (proj2 (Z.eqb_eq _ _) E). reflexivity.
      * destruct (Z.eqb_spec (pid x) q); [congruence | reflexivity].
    + rewrite IH. destruct (Z.eqb_spec q p) as [F|F].
      * subst q. rewrite (proj2 (Z.eqb_neq _ _) E). reflexivity.
      * reflexivity.
Qed.

(** ** The reaper *)

Ltac run_shell :=
  unfold bind, ret, get_world, set_jobs, exit_, fault, sys; simpl.

Lemma checked_stdwrite_after k line w :
  checked_stdwrite k line w = after_write k w (my_jobs w) line.
Proof.
  unfold checked_stdwrite, after_write, die. run_shell.
  destruct (sys_ret k (List.length (trace w)) <? 0); destruct w; reflexivity.
Qed.

Lemma reap_signaled k status pgid w :
  WIFSIGNALED status = true ->
  reap k status pgid w =
  after_write k w (remove_job_pid (my_jobs w) pgid)
    (reap_line (get_job_jid (my_jobs w) pgid) pgid
       (snprintf 32 ("terminated by signal " ++ show_int (WTERMSIG status)))).
Proof.
  intros S. pose proof (signaled_termsig status S) as R.
  unfold reap. run_shell. rewrite S. simpl.
  destruct (Z.eqb_spec (WTERMSIG status) 0) as [E|E]; [lia|]. simpl.
  rewrite checked_stdwrite_after. reflexivity.
Qed.

Lemma reap_exited k status pgid w :
  WIFEXITED status = true ->
  reap k status pgid w =
  after_write k w (remove_job_pid (my_jobs w) pgid)
    (reap_line (get_job_jid (my_jobs w) pgid) pgid
       (snprintf 64 ("terminated with exit status "
                       ++ show_int (WEXITSTATUS status)))).
Proof.
  intros X. destruct (exited_not_others status X) as (A & B & C).
  unfold reap. run_shell. rewrite A, B, C, X. simpl.
  rewrite checked_stdwrite_after. reflexivity.
Qed.

Lemma reap_stopped k status pgid w :
  WIFSTOPPED status = true -> WSTOPSIG status <> 0 ->
  reap k status pgid w =
  after_write k w (update_job_pid (my_jobs w) pgid STOPPED)
    (reap_line (get_job_jid (my_jobs w) pgid) pgid
       (snprintf 32 ("suspended by signal " ++ show_int (WSTOPSIG status)))).
Proof.
  intros T N. pose proof (stopped_not_signaled status T) as S.
  unfold reap. run_shell. rewrite S, T. simpl.
  destruct (Z.eqb_spec (WSTOPSIG status) 0) as [E|E]; [contradiction|]. simpl.
  rewrite checked_stdwrite_after. reflexivity.
Qed.

(** C4, as the code has it: a termination status (signal or exit) whose
    process group has no entry in the job list is reported all the same.
    The job list stays as it is and the line [reap] writes carries the
    job id the lookup returned, -1. *)
Theorem reap_reports_unregistered_termination k status pgid w :
  ~ In pgid (map pid (my_jobs w)) ->
  (WIFSIGNALED status = true ->
   reap k status pgid w =
   after_write k w (my_jobs w)
     (reap_line (-1) pgid
        (snprintf 32 ("terminated by signal " ++ show_int (WTERMSIG status)))))
  /\
  (WIFEXITED status = true ->
   reap k status pgid w =
   after_write k w (my_jobs w)
     (reap_line (-1) pgid
        (snprintf 64 ("terminated with exit status "
                        ++ show_int (WEXITSTATUS status))))).
Proof.
  intros A. split; intros H.
  - rewrite (reap_signaled _ _ _ _ H).
    rewrite (remove_job_pid_absent _ _ A), (get_job_jid_absent _ _ A).
    reflexivity.
  - rewrite (reap_exited _ _ _ _ H).
    rewrite (remove_job_pid_absent _ _ A), (get_job_jid_absent _ _ A).
    reflexivity.
Qed.

Lemma reap_reports_unregistered_termination_witness :
  reap quiet_kernel 9 555 one_job_world =
  Return tt (mkW (my_jobs one_job_world) 2
                 [SysWrite 1 ("[-1] (555) terminated by signal 9" ++ nl)] []).
Proof.
  refine (eq_trans
            (proj1 (reap_reports_unregistered_termination
                      quiet_kernel 9 555 one_job_world _) _) _).
  - simpl. intros [H|H]; [discriminate H | exact H].
  - reflexivity.
  - reflexivity.
Defined.

(** C4, counterexample: process group 555 has no entry, its status says
    it was killed by signal 9, and [reap] writes a line. *)
Lemma reap_unregistered_prints :
  WIFSIGNALED 9 = true /\
  ~ In 555 (map pid (my_jobs one_job_world)) /\
  trace (final (reap quiet_kernel 9 555 one_job_world)) =
  [SysWrite STDOUT_FILENO ("[-1] (555) terminated by signal 9" ++ nl)].
Proof.
  split; [reflexivity|]. split; [|reflexivity].
  simpl. intros [H|H]; [discriminate H | exact H].
Qed.





(** C6, as the code has it: for a stop status with a signal number,
    [reap] sets the state of the entry of that process group to STOPPED
    and changes nothing else in the job list: no entry is added, no job
    id is taken from [next_job].  When there is no entry the job list is
    left as it is.  In both cases the line
    "[<job_id>] (<pgid>) suspended by signal <signal>" is written, with
    the job id the lookup returned. *)
Theorem reap_stop_updates_state_only k status pgid w :
  WIFSTOPPED status = true -> WSTOPSIG status <> 0 ->
  let l' := update_job_pid (my_jobs w) pgid STOPPED in
  reap k status pgid w =
  after_write k w l'
    (reap_line (get_job_jid (my_jobs w) pgid) pgid
       (snprintf 32 ("suspended by signal " ++ show_int (WSTOPSIG status))))
  /\ map jid l' = map jid (my_jobs w)
  /\ map pid l' = map pid (my_jobs w)
  /\ map command l' = map command (my_jobs w)
  /\ (forall q, q <> pgid -> state_of l' q = state_of (my_jobs w) q)
  /\ (In pgid (map pid (my_jobs w)) -> state_of l' pgid = Some STOPPED)
  /\ (~ In pgid (map pid (my_jobs w)) ->
      l' = my_jobs w /\ get_job_jid (my_jobs w) pgid = -1).
Proof.
  intros T N l'. subst l'.
  destruct (update_job_pid_keys (my_jobs w) pgid STOPPED) as (A & B & C).
  split; [apply reap_stopped; assumption|].
  repeat (split; [assumption|]).
  split; [|split].
  - intros q Q. rewrite update_job_pid_state.
    rewrite (proj2 (Z.eqb_neq _ _) Q). reflexivity.
  - intros I. rewrite update_job_pid_state, Z.eqb_refl.
    destruct (state_of (my_jobs w) pgid) eqn:E; [reflexivity|].
    exfalso. clear - I E. induction (my_jobs w) as [|x r IH]; simpl in *.
    + exact I.
    + destruct (Z.eqb_spec (pid x) pgid) as [F|F]; [discriminate|].
      destruct I as [I|I]; [contradiction | exact (IH I E)].
  - intros I. split.
    + apply update_job_pid_absent. exact I.
    + apply get_job_jid_absent. exact I.
Qed.

Lemma reap_stop_updates_state_only_witness :
  reap quiet_kernel 5247 100 one_job_world =
  Return tt (mkW [mkJob 1 100 STOPPED (Some "/bin/sleep")] 2
               [SysWrite STDOUT_FILENO
                  ("[1] (100) suspended by signal 20" ++ nl)] []).
Proof.
  refine (eq_trans
            (proj1 (reap_stop_updates_state_only
                      quiet_kernel 5247 100 one_job_world _ _)) _).
  - reflexivity.
  - discriminate.
  - reflexivity.
Defined.

(** C6, counterexample: process group 555 has no entry and stops on
    signal 20; after [reap] it still has none and [next_job] has not
    moved. *)
Lemma reap_stop_registers_nothing :
  WIFSTOPPED 5247 = true /\ WSTOPSIG 5247 = 20 /\
  ~ In 555 (map pid (my_jobs one_job_world)) /\
  my_jobs (final (reap quiet_kernel 5247 555 one_job_world)) =
  my_jobs one_job_world /\
  next_job (final (reap quiet_kernel 5247 555 one_job_world)) =
  next_job one_job_world /\
  trace (final (reap quiet_kernel 5247 555 one_job_world)) =
  [SysWrite STDOUT_FILENO ("[-1] (555) suspended by signal 20" ++ nl)].
Proof.
  repeat split. simpl. intros [H|H]; [discriminate H | exact H].
Qed.

(** ** Builtins *)

(** C10: [exit] ends the shell, with status 0 and an emptied job list,
    exactly when it is given no argument; with any other argument count
    it writes "exit: syntax error" (the 20 bytes the code asks for, so
    the literal's NUL as well) and returns to the loop with the job list
    untouched. *)
Theorem exit_builtin k argv argc w :
  aget argv 0 = Some "exit" ->
  (argc = 1 ->
   exec_builtins k argv argc w =
   Exit 0 (mkW [] (next_job w) (trace w) (pending w)))
  /\
  (argc <> 1 ->
   exec_builtins k argv argc w =
   Return 0 (mkW (my_jobs w) (next_job w)
               (trace w ++ [SysWrite STDERR_FILENO
                              ("exit: syntax error" ++ nl ++ nul)])
               (pending w))).
Proof.
  intros A. unfold exec_builtins. rewrite A. simpl. split; intros H.
  - subst argc. reflexivity.
  - rewrite (proj2 (Z.eqb_neq _ _) H). reflexivity.
Qed.

Lemma exit_builtin_witness :
  exec_builtins quiet_kernel [Some "exit"; None] 1 one_job_world =
  Exit 0 (mkW [] 2 [] [])
  /\
  exec_builtins quiet_kernel [Some "exit"; Some "now"; None] 2 one_job_world =
  Return 0 (mkW (my_jobs one_job_world) 2
              [SysWrite STDERR_FILENO ("exit: syntax error" ++ nl ++ nul)] []).
Proof.
  split.
  - apply (proj1 (exit_builtin quiet_kernel [Some "exit"; None] 1
                    one_job_world eq_refl)).
    reflexivity.
  - apply (proj2 (exit_builtin quiet_kernel [Some "exit"; Some "now"; None] 2
                    one_job_world eq_refl)).
    discriminate.
Defined.

(** The argument counts [parse] hands to [exec_builtins] for "exit" and
    for "exit now". *)
Example exit_lines_parsed :
  (fst (Parsing.parse "exit" zeroed zeroed [0;0;0;0]),
   firstn 2 (Parsing.argv (snd (Parsing.parse "exit" zeroed zeroed [0;0;0;0]))))
  = (1, [Some "exit"; None]) /\
  (fst (Parsing.parse "exit now" zeroed zeroed [0;0;0;0]),
   firstn 3 (Parsing.argv
               (snd (Parsing.parse "exit now" zeroed zeroed [0;0;0;0]))))
  = (2, [Some "exit"; Some "now"; None]).
Proof. split; vm_compute; reflexivity. Qed.

(** C9, the code at "ln a b c": the syntax error is written and [link]
    is called all the same, on the first two arguments. *)
Theorem ln_links_after_syntax_error :
  let '(argc, p) := Parsing.parse "ln a b c" zeroed zeroed [0;0;0;0] in
  argc = 4 /\
  exec_builtins quiet_kernel (Parsing.argv p) argc one_job_world =
  Return 0 (mkW (my_jobs one_job_world) 2
              [SysWrite STDERR_FILENO ("ln: syntax error" ++ nl);
               SysLink (Some "a") (Some "b")] []).
Proof. vm_compute. split; reflexivity. Qed.

(** With too few arguments [link] is called too, with NULL. *)
Lemma ln_too_few_arguments_calls_link k argv argc w :
  aget argv 0 = Some "ln" -> argc <> 3 ->
  exists t,
    trace (final (exec_builtins k argv argc w)) =
    (trace w ++ SysWrite STDERR_FILENO ("ln: syntax error" ++ nl)
             :: SysLink (aget argv 1) (aget argv 2) :: t)%list.
Proof.
  intros A H. unfold exec_builtins. rewrite A. simpl.
  unfold write_stderr, perror. run_shell.
  rewrite (proj2 (Z.eqb_neq _ _) H). simpl.
  match goal with |- context [if ?b then _ else _] => destruct b end; simpl;
    rewrite <- ?app_assoc; simpl; eexists; reflexivity.
Qed.

(** [cd] and [rm], the neighbours of [ln], stop after the error. *)
Lemma cd_rm_stop_after_syntax_error k argv argc w name :
  (name = "cd" \/ name = "rm") ->
  aget argv 0 = Some name -> argc <> 2 ->
  exec_builtins k argv argc w =
  Return 0 (mkW (my_jobs w) (next_job w)
              (trace w ++ [SysWrite STDERR_FILENO
                             (name ++ ": syntax error" ++ nl)])
              (pending w)).
Proof.
  intros [N|N] A H; subst name; unfold exec_builtins; rewrite A; simpl;
    rewrite (proj2 (Z.eqb_neq _ _) H); reflexivity.
Qed.

(** ** [fg] *)

Ltac split_ifs :=
  repeat match goal with
         | |- context [if ?b then _ else _] => destruct b eqn:?; simpl
         | |- context [match ?x with Some _ => _ | None => _ end] =>
             destruct x eqn:?; simpl
         end.

(** C2, the code on [fg]: whatever the arguments, the job list and the
    kernel's answers, the [fg] branch of [exec_builtins] never calls
    [tcsetpgrp], neither before it waits nor after. *)
Theorem fg_never_moves_the_terminal k argv argc w :
  aget argv 0 = Some "fg" ->
  exists t,
    trace (final (exec_builtins k argv argc w)) = (trace w ++ t)%list /\
    existsb is_tcsetpgrp t = false.
Proof.
  intros A. unfold exec_builtins. rewrite A. simpl.
  unfold with_job, write_stderr, checked_waitpid, sys_waitpid, handle_signals,
    checked_stdwrite, incr_next_job, die.
  run_shell. split_ifs; rewrite <- ?app_assoc; simpl;
    try (exists []; rewrite app_nil_r; split; reflexivity);
    eexists; split; reflexivity.
Qed.

Lemma fg_never_moves_the_terminal_witness :
  exists t,
    trace (final (exec_builtins quiet_kernel [Some "fg"; Some "%1"; None] 2
                    one_job_world))
    = (trace one_job_world ++ t)%list /\
    existsb is_tcsetpgrp t = false.
Proof.
  apply (fg_never_moves_the_terminal quiet_kernel
           [Some "fg"; Some "%1"; None] 2 one_job_world).
  reflexivity.
Defined.

(** The calls [fg %1] makes when job 1 is process group 100. *)
Example fg_calls :
  trace (final (exec_builtins quiet_kernel [Some "fg"; Some "%1"; None] 2
                  one_job_world))
  = [SysKill 100 SIGCONT; SysWaitpid 100 WUNTRACED].
Proof. reflexivity. Qed.

(** [run_prog], the other place that waits for a foreground job, gives
    the terminal back to the shell's own group once the wait is over. *)
Example run_prog_restores_the_terminal :
  trace (final (run_prog (mkK (fun n => 77) (fun _ => 5247) (fun _ => ""))
                  [Some "/sleep"; Some "5"; None]
                  [Some "/bin/sleep"; Some "5"; None] [0;0;0;0]
                  initial_world))
  = [SysFork; SysWaitpid 77 WUNTRACED;
     SysWrite STDOUT_FILENO ("[1] (77) suspended by signal 20" ++ nl);
     SysGetpgrp; SysTcsetpgrp STDIN_FILENO 77].
Proof. reflexivity. Qed.

(** C3, the code on [fg]: job 1 is brought to the foreground and the
    wait (the second call [fg] makes, after [kill]) stores a status that
    says it exited or was killed; [exec_builtins] returns with the job
    still in the list, marked RUNNING. *)
Theorem fg_keeps_terminated_job k w' :
  exec_builtins k [Some "fg"; Some "%1"; None] 2 one_job_world = Return 0 w' ->
  WIFEXITED (sys_status k 1) = true \/ WIFSIGNALED (sys_status k 1) = true ->
  my_jobs w' = [mkJob 1 100 RUNNING (Some "/bin/sleep")].
Proof.
  unfold exec_builtins. simpl.
  unfold with_job, write_stderr, checked_waitpid, sys_waitpid, handle_signals,
    checked_stdwrite, incr_next_job, die.
  run_shell. intros E H.
  destruct (sys_ret k 1 <? 0); [discriminate E|]. simpl in E.
  destruct H as [H|H].
  - destruct (exited_not_others _ H) as (A & B & _).
    rewrite A, B in E. simpl in E. inversion E. reflexivity.
  - rewrite H in E. simpl in E.
    destruct (negb (WTERMSIG (sys_status k 1) =? 0)); simpl in E.
    + destruct (sys_ret k 2 <? 0); simpl in E; inversion E. reflexivity.
    + inversion E. reflexivity.
Qed.

Lemma fg_keeps_terminated_job_witness :
  my_jobs (final (exec_builtins quiet_kernel [Some "fg"; Some "%1"; None] 2
                    one_job_world))
  = [mkJob 1 100 RUNNING (Some "/bin/sleep")].
Proof.
  apply (fg_keeps_terminated_job quiet_kernel
           (final (exec_builtins quiet_kernel [Some "fg"; Some "%1"; None] 2
                     one_job_world))).
  - reflexivity.
  - left. reflexivity.
Defined.

(** When the job stops again instead, [handle_signals] looks it up by
    job id where it holds a pid, finds nothing, and registers the same
    process group a second time. *)
Example fg_stopped_again_registers_twice :
  map (fun j => (jid j, pid j, state j))
      (my_jobs (final (exec_builtins
                         (mkK (fun _ => 0) (fun _ => 5247) (fun _ => ""))
                         [Some "fg"; Some "%1"; None] 2 one_job_world)))
  = [(1, 100, RUNNING); (2, 100, STOPPED)].
Proof. reflexivity. Qed.

(** The reaper, given the same status for the same job, removes it. *)
Example reap_removes_terminated_job :
  my_jobs (final (reap quiet_kernel 0 100 one_job_world)) = [] /\
  my_jobs (final (reap quiet_kernel 9 100 one_job_world)) = [].
Proof. split; reflexivity. Qed.

(** ** The polling loop *)

Lemma after_write_pending k w l line w' :
  after_write k w l line = Return tt w' -> pending w' = pending w.
Proof.
  unfold after_write. destruct (sys_ret k (List.length (trace w)) <? 0);
    intros E; inversion E. reflexivity.
Qed.

Lemma reap_pending k status pgid w w' :
  reap k status pgid w = Return tt w' -> pending w' = pending w.
Proof.
  unfold reap. run_shell.
  destruct (WIFSIGNALED status); simpl;
    [|destruct (WIFSTOPPED status); simpl;
      [|destruct (WIFCONTINUED status); simpl;
        [|destruct (WIFEXITED status); simpl]]];
    try (destruct (negb _); simpl);
    rewrite ?checked_stdwrite_after; intros E;
    try (apply after_write_pending in E; exact E);
    inversion E; reflexivity.
Qed.

(** A drain of a queue of genuine notifications (positive pids) that
    returns has emptied the queue. *)
Lemma drain_loop_consumes_all k q :
  forall w w',
    pending w = q -> Forall (fun ps => 0 < fst ps) q ->
    drain_loop k q w = Return tt w' -> pending w' = [].
Proof.
  induction q as [|[p s] q IH]; intros w w' P F.
  - simpl. unfold bind, sys_waitpid_nohang. rewrite P. simpl.
    destruct (sys_ret k (List.length (trace w)) <? 0); simpl;
      intros E; inversion E; reflexivity.
  - inversion F as [|? ? Hp Fq]; subst. simpl in Hp.
    simpl. unfold bind at 1. unfold sys_waitpid_nohang. rewrite P. simpl.
    rewrite (proj2 (Z.ltb_lt 0 p) Hp).
    unfold bind.
    destruct (reap k s p _) as [[] w1| | |] eqn:R; try discriminate.
    apply reap_pending in R. simpl in R.
    apply IH; assumption.
Qed.

(** C8: once a drain has returned and left no notification pending, a
    second drain polls once, finds nothing, and returns: the job list and
    [next_job] are as they were and nothing is written. *)
Theorem drain_again_is_quiet k w w1 :
  drain k w = Return tt w1 ->
  pending w1 = [] ->
  drain k w1 =
  Return tt (mkW (my_jobs w1) (next_job w1)
               (trace w1 ++ [SysWaitpid (-1)
                               (Z.lor WNOHANG (Z.lor WUNTRACED WCONTINUED))])
               []).
Proof.
  intros _ P. unfold drain. rewrite P. simpl.
  unfold bind, sys_waitpid_nohang. rewrite P.
  destruct (sys_ret k (List.length (trace w1)) <? 0); reflexivity.
Qed.

Lemma drain_again_is_quiet_witness :
  drain quiet_kernel (final (drain quiet_kernel two_pending_world)) =
  Return tt (mkW [mkJob 1 100 STOPPED (Some "/bin/sleep")] 3
               [SysWaitpid (-1) 11;
                SysWrite STDOUT_FILENO ("[1] (100) suspended by signal 20" ++ nl);
                SysWaitpid (-1) 11;
                SysWrite STDOUT_FILENO ("[2] (200) terminated by signal 9" ++ nl);
                SysWaitpid (-1) 11;
                SysWaitpid (-1) 11] []).
Proof.
  refine (eq_trans
            (drain_again_is_quiet quiet_kernel two_pending_world
               (final (drain quiet_kernel two_pending_world)) _ _) _);
    reflexivity.
Defined.

(** ** The parser and the background flag *)

Section ParseFrame.
Import Parsing.

Lemma id_rd_tok_range tok : -1 <= id_rd_tok tok <= 2.
Proof.
  unfold id_rd_tok. destruct tok as [t|]; [|lia].
  destruct (strncmp_eq t "<" 2); [lia|].
  destruct (strncmp_eq t ">" 2); [lia|].
  destruct (strncmp_eq t ">>" 3); lia.
Qed.

Lemma nth_error_aset_other {A} (l : list A) i j v :
  i <> j -> nth_error (aset l i v) j = nth_error l j.
Proof.
  revert i j.
  induction l as [|x r IH]; intros [|i] [|j] H; simpl; try reflexivity.
  - contradiction.
  - apply IH. congruence.
Qed.

Lemma redir3_set_saved sv p : redir3 (set_saved sv p) = redir3 p.
Proof. reflexivity. Qed.

Lemma redir3_set_token i v p : redir3 (set_token i v p) = redir3 p.
Proof. reflexivity. Qed.

Lemma redir3_set_argv i v p : redir3 (set_argv i v p) = redir3 p.
Proof. reflexivity. Qed.

Lemma redir3_incr_offset p : redir3 (incr_offset p) = redir3 p.
Proof. reflexivity. Qed.

Lemma redir3_write_err s n p : redir3 (write_err s n p) = redir3 p.
Proof. reflexivity. Qed.

Lemma redir3_set_redir m v p :
  0 <= m <= 2 -> redir3 (set_redir (Z.to_nat m) v p) = redir3 p.
Proof.
  intros M. unfold redir3, set_redir. cbn [redir].
  apply nth_error_aset_other. lia.
Qed.

Create Rewrite HintDb frame.
Hint Rewrite redir3_set_saved redir3_set_token redir3_set_argv
  redir3_incr_offset redir3_write_err : frame.

Ltac split_parse :=
  repeat match goal with
         | |- context [let (_, _) := ?x in _] => destruct x
         | |- context [if ?b then _ else _] => destruct b
         | |- context [match ?x with Some _ => _ | None => _ end] => destruct x
         | |- context [match ?x with O => _ | S _ => _ end] => destruct x
         end.

(** [set_tok] writes [redir[mode]] only, and [mode] is 0, 1 or 2. *)
Lemma set_tok_redir3 tok mode i p :
  0 <= mode <= 2 -> redir3 (set_state (set_tok tok mode i p)) = redir3 p.
Proof.
  intros M. unfold set_tok. split_parse; cbn [set_state];
    autorewrite with frame; rewrite ?redir3_set_redir by exact M;
    autorewrite with frame; reflexivity.
Qed.

Lemma handle_redir_redir3 tok p i :
  redir3 (redir_state (handle_redir tok p i)) = redir3 p.
Proof.
  funelim (handle_redir tok p i); [reflexivity| |];
    pose proof (id_rd_tok_range tok) as R;
    match goal with
    | H : (0 <=? id_rd_tok tok) = true |- _ =>
        pose proof (proj1 (Z.leb_le _ _) H) as L
    end;
    match goal with
    | H : set_tok tok _ i p = _ |- _ =>
        pose proof (set_tok_redir3 tok (id_rd_tok tok) i p ltac:(lia)) as S;
        rewrite H in S; cbn [set_state] in S
    end.
  - exact S.
  - rewrite <- S. assumption.
Qed.

Lemma parse_finish_redir3 i p : redir3 (snd (parse_finish i p)) = redir3 p.
Proof. unfold parse_finish. split_parse; reflexivity. Qed.

Lemma parse_loop_redir3 n : forall i p,
  redir3 (snd (parse_loop n i p)) = redir3 p.
Proof.
  induction n as [|n IH]; intros i p; simpl.
  - apply parse_finish_redir3.
  - destruct (strtok_next (saved p)) as [t sv].
    pose proof (handle_redir_redir3 t (set_saved sv p) i) as H.
    destruct (handle_redir t (set_saved sv p) i) as [p'|tok p'];
      cbn [redir_state] in H; autorewrite with frame in H.
    + exact H.
    + destruct tok; [rewrite IH | rewrite parse_finish_redir3];
        autorewrite with frame; exact H.
Qed.

Lemma parse_redir3 buffer tokens argv redir :
  redir3 (snd (parse buffer tokens argv redir)) = nth_error redir 3.
Proof.
  unfold parse. destruct (strtok_next (tokenize buffer)) as [first sv].
  pose proof (handle_redir_redir3 first (mkP sv tokens argv 0 redir []) 0) as H.
  destruct (handle_redir first (mkP sv tokens argv 0 redir []) 0)
    as [p'|[t|] p']; cbn [redir_state] in H; try exact H.
  rewrite parse_loop_redir3.
  destruct t as [|c t]; [|destruct (Ascii.eqb c slash)];
    autorewrite with frame; exact H.
Qed.

(** C1: whatever the line, and whether [parse] succeeds or fails, slot 3
    of [redir] is after the call what it was before; with the zeroed
    [redir] that [main] passes, the flag [run_prog] reads is 0. *)
Theorem parse_keeps_background_flag buffer tokens argv :
  (forall redir,
     nth_error (Parsing.redir (snd (parse buffer tokens argv redir))) 3
     = nth_error redir 3)
  /\ iget (Parsing.redir (snd (parse buffer tokens argv [0;0;0;0]))) 3 = 0.
Proof.
  split.
  - intros redir. apply parse_redir3.
  - pose proof (parse_redir3 buffer tokens argv [0;0;0;0]) as H.
    unfold redir3 in H. unfold iget.
    rewrite (nth_error_nth _ _ 0 H). reflexivity.
Qed.

End ParseFrame.

(** A line that ends in "&" is parsed like any other: the "&" becomes
    the last argument and the flag stays 0. *)
Example parse_ampersand_line :
  let '(r, p) := Parsing.parse "/bin/sleep 100 &" zeroed zeroed [0;0;0;0] in
  (r, firstn 4 (Parsing.argv p), firstn 4 (Parsing.tokens p), Parsing.redir p)
  = (3, [Some "/sleep"; Some "100"; Some "&"; None],
        [Some "/bin/sleep"; Some "100"; Some "&"; None], [0;0;0;0]).
Proof. vm_compute. reflexivity. Qed.

(** A whole turn of [main] on such a line: the shell forks and then
    waits for the child in the foreground; no job is registered and no
    "[1] (77)" line is written. *)
Example ampersand_line_runs_in_foreground :
  main_iteration ampersand_kernel false initial_world =
  Return tt (mkW [] 1
               [SysSignal SIGINT SIG_IGN; SysSignal SIGTSTP SIG_IGN;
                SysSignal SIGTTOU SIG_IGN;
                SysWaitpid (-1) 11; SysRead STDIN_FILENO;
                SysFork; SysWaitpid 77 WUNTRACED;
                SysGetpgrp; SysTcsetpgrp STDIN_FILENO 77] []).
Proof. vm_compute. reflexivity. Qed.

Example parse_redirections :
  let '(r, p) := Parsing.parse "< in /bin/cat > out" zeroed zeroed [0;0;0;0] in
  (r, firstn 3 (Parsing.argv p), firstn 6 (Parsing.tokens p), Parsing.redir p)
  = (1, [Some "/cat"; None; None],
        [Some "<"; Some "in"; Some "/bin/cat"; Some ">"; Some "out"; None],
        [1;4;0;0]).
Proof. vm_compute. reflexivity. Qed.

(** ** Job ids over a session *)

Lemma shrinks_refl l : shrinks l l.
Proof. induction l; constructor; auto. Qed.

Lemma shrinks_nil_r l : shrinks l [].
Proof. induction l; constructor; auto. Qed.

Lemma shrinks_trans l1 l2 :
  shrinks l1 l2 -> forall l3, shrinks l2 l3 -> shrinks l1 l3.
Proof.
  induction 1 as [|x y l l' J P S IH|x l l' S IH]; intros l3 H.
  - exact H.
  - inversion H as [|y' z m m' J' P' S'|y' m m' S']; subst.
    + apply shrinks_keep; [congruence | congruence | apply IH; exact S'].
    + apply shrinks_drop. apply IH. exact S'.
  - apply shrinks_drop. apply IH. exact H.
Qed.

Lemma shrinks_remove l p : shrinks l (remove_job_pid l p).
Proof.
  induction l as [|x r IH]; simpl; [constructor|].
  destruct (pid x =? p).
  - apply shrinks_drop. apply shrinks_refl.
  - apply shrinks_keep; auto.
Qed.

Lemma shrinks_update l p s : shrinks l (update_job_pid l p s).
Proof.
  induction l as [|x r IH]; simpl; [constructor|].
  destruct (pid x =? p).
  - apply shrinks_keep; [reflexivity | reflexivity | apply shrinks_refl].
  - apply shrinks_keep; auto.
Qed.

Lemma shrinks_snoc l l' x :
  shrinks l l' -> shrinks (l ++ [x])%list (l' ++ [x])%list.
Proof.
  induction 1; simpl.
  - apply shrinks_refl.
  - apply shrinks_keep; assumption.
  - apply shrinks_drop. assumption.
Qed.

Lemma shrinks_In l l' :
  shrinks l l' ->
  forall j, In j l' -> exists j0, In j0 l /\ jid j0 = jid j /\ pid j0 = pid j.
Proof.
  induction 1 as [|x y l l' J P S IH|x l l' S IH]; intros j I.
  - contradiction.
  - destruct I as [I|I].
    + subst j. exists x. simpl. auto.
    + destruct (IH j I) as (j0 & A & B & C). exists j0. simpl. auto.
  - destruct (IH j I) as (j0 & A & B & C). exists j0. simpl. auto.
Qed.

Lemma shrinks_Forall (P : Z -> Prop) l l' :
  shrinks l l' -> Forall P (map jid l) -> Forall P (map jid l').
Proof.
  induction 1 as [|x y l l' J Q S IH|x l l' S IH]; simpl; intros F.
  - constructor.
  - inversion F; subst. constructor; [rewrite <- J; assumption | auto].
  - inversion F; subst. auto.
Qed.

Lemma shrinks_sorted l l' :
  shrinks l l' ->
  StronglySorted Z.lt (map jid l) -> StronglySorted Z.lt (map jid l').
Proof.
  induction 1 as [|x y l l' J Q S IH|x l l' S IH]; simpl; intros H.
  - constructor.
  - inversion H as [|? ? Hs Hf]; subst. constructor; [auto|].
    rewrite <- J. apply (shrinks_Forall _ _ _ S). exact Hf.
  - inversion H; subst. auto.
Qed.

Lemma quiet_refl w : quiet w w.
Proof. split; [reflexivity | apply shrinks_refl]. Qed.

Lemma quiet_trans w1 w2 w3 : quiet w1 w2 -> quiet w2 w3 -> quiet w1 w3.
Proof.
  intros [A B] [C D]. split; [congruence | eapply shrinks_trans; eauto].
Qed.

Lemma quiet_registers w w' : quiet w w' -> registers w w'.
Proof. intros H. left. exact H. Qed.

Lemma quiet_then_registers w1 w2 w3 :
  quiet w1 w2 -> registers w2 w3 -> registers w1 w3.
Proof.
  intros Q [R|(N & p & s & c & S)].
  - left. eapply quiet_trans; eauto.
  - destruct Q as [A B]. right. split; [congruence|].
    exists p, s, c. rewrite A in S. unfold add_job in *.
    eapply shrinks_trans; [apply shrinks_snoc; exact B | exact S].
Qed.

Lemma registers_then_quiet w1 w2 w3 :
  registers w1 w2 -> quiet w2 w3 -> registers w1 w3.
Proof.
  intros [R|(N & p & s & c & S)] Q.
  - left. eapply quiet_trans; eauto.
  - destruct Q as [A B]. right. split; [congruence|].
    exists p, s, c. eapply shrinks_trans; eauto.
Qed.

(** *** What each piece of shell code may do to the globals *)

Lemma sat_bind_quiet {A B} (m : M A) (f : A -> M B) :
  sat m quiet -> (forall a, sat (f a) quiet) -> sat (bind m f) quiet.
Proof.
  intros Hm Hf w. unfold bind. specialize (Hm w).
  destruct (m w) as [a w'| | |]; simpl in *; try exact Hm.
  eapply quiet_trans; [exact Hm | apply Hf].
Qed.

Lemma sat_bind_quiet_first {A B} (m : M A) (f : A -> M B) :
  sat m quiet -> (forall a, sat (f a) registers) -> sat (bind m f) registers.
Proof.
  intros Hm Hf w. unfold bind. specialize (Hm w).
  destruct (m w) as [a w'| | |]; simpl in *;
    try (apply quiet_registers; exact Hm).
  eapply quiet_then_registers; [exact Hm | apply Hf].
Qed.

Lemma sat_bind_quiet_last {A B} (m : M A) (f : A -> M B) :
  sat m registers -> (forall a, sat (f a) quiet) -> sat (bind m f) registers.
Proof.
  intros Hm Hf w. unfold bind. specialize (Hm w).
  destruct (m w) as [a w'| | |]; simpl in *; try exact Hm.
  eapply registers_then_quiet; [exact Hm | apply Hf].
Qed.

Lemma sat_weaken {A} (m : M A) : sat m quiet -> sat m registers.
Proof. intros H w. apply quiet_registers. apply H. Qed.

Lemma sat_ret {A} (a : A) : sat (ret a) quiet.
Proof. intros w. apply quiet_refl. Qed.

Lemma sat_exit {A} c : sat (@exit_ A c) quiet.
Proof. intros w. apply quiet_refl. Qed.

Lemma sat_fault {A} : sat (@fault A) quiet.
Proof. intros w. apply quiet_refl. Qed.

Lemma sat_Exec {A} : sat (@Exec A) quiet.
Proof. intros w. apply quiet_refl. Qed.

Lemma sat_get_world : sat get_world quiet.
Proof. intros w. apply quiet_refl. Qed.

Lemma sat_sys k c : sat (sys k c) quiet.
Proof. intros w. split; [reflexivity | apply shrinks_refl]. Qed.

Lemma sat_sys_waitpid k p o : sat (sys_waitpid k p o) quiet.
Proof. intros w. split; [reflexivity | apply shrinks_refl]. Qed.

Lemma sat_sys_read k : sat (sys_read k) quiet.
Proof. intros w. split; [reflexivity | apply shrinks_refl]. Qed.

Lemma sat_sys_waitpid_nohang k : sat (sys_waitpid_nohang k) quiet.
Proof.
  intros w. unfold sys_waitpid_nohang.
  destruct (pending w); split; try reflexivity; apply shrinks_refl.
Qed.

Lemma sat_emit cs : sat (emit cs) quiet.
Proof. intros w. split; [reflexivity | apply shrinks_refl]. Qed.

Lemma sat_arrive q : sat (arrive q) quiet.
Proof. intros w. split; [reflexivity | apply shrinks_refl]. Qed.

Lemma sat_set_jobs f :
  (forall l, shrinks l (f l)) -> sat (set_jobs f) quiet.
Proof. intros H w. split; [reflexivity | apply H]. Qed.

Lemma sat_cleanup : sat (set_jobs cleanup_job_list) quiet.
Proof. apply sat_set_jobs. intros l. apply shrinks_nil_r. Qed.

Lemma sat_remove p : sat (set_jobs (fun l => remove_job_pid l p)) quiet.
Proof. apply sat_set_jobs. intros l. apply shrinks_remove. Qed.

Lemma sat_update p s : sat (set_jobs (fun l => update_job_pid l p s)) quiet.
Proof. apply sat_set_jobs. intros l. apply shrinks_update. Qed.

Lemma sat_if {A} (b : bool) (x y : M A) R :
  sat x R -> sat y R -> sat (if b then x else y) R.
Proof. destruct b; auto. Qed.

(** Proves [sat m quiet] or [sat m registers] for code built from
    [bind], conditionals and pieces whose effect is already known. *)
Ltac sat_base :=
  first [ assumption
        | apply sat_ret | apply sat_exit | apply sat_fault | apply sat_Exec
        | apply sat_get_world | apply sat_sys | apply sat_sys_waitpid
        | apply sat_sys_read | apply sat_sys_waitpid_nohang | apply sat_emit
        | apply sat_cleanup | apply sat_remove | apply sat_update ].

Ltac sat_go known :=
  intros; cbv beta;
  lazymatch goal with
  | |- sat (if _ then _ else _) _ => apply sat_if; sat_go known
  | |- sat (match ?x with Some _ => _ | None => _ end) _ =>
      destruct x; sat_go known
  | |- sat (let '(_, _) := ?x in _) _ => destruct x; sat_go known
  | |- sat (bind _ _) quiet => apply sat_bind_quiet; sat_go known
  | |- sat (bind _ _) registers =>
      first [ solve [apply sat_bind_quiet_first; sat_go known]
            | solve [apply sat_bind_quiet_last; sat_go known] ]
  | |- sat _ quiet => first [ sat_base | solve [known] ]
  | |- sat _ registers =>
      first [ solve [known] | apply sat_weaken; first [ sat_base | solve [known] ] ]
  end.

Lemma sat_die {A} k what : sat (@die k A what) quiet.
Proof. unfold die. sat_go idtac. Qed.

Lemma sat_checked_stdwrite k s : sat (checked_stdwrite k s) quiet.
Proof. unfold checked_stdwrite. sat_go ltac:(apply sat_die). Qed.

Lemma sat_checked_close k fd : sat (checked_close k fd) quiet.
Proof. unfold checked_close. sat_go ltac:(apply sat_die). Qed.

Lemma sat_checked_open k p f m : sat (checked_open k p f m) quiet.
Proof. unfold checked_open. sat_go ltac:(apply sat_die). Qed.

Lemma sat_checked_signal k s h : sat (checked_signal k s h) quiet.
Proof. unfold checked_signal. sat_go ltac:(apply sat_die). Qed.

Lemma sat_checked_setpgrp k p : sat (checked_setpgrp k p) quiet.
Proof. unfold checked_setpgrp. sat_go ltac:(apply sat_die). Qed.

Lemma sat_checked_waitpid k p o : sat (checked_waitpid k p o) quiet.
Proof. unfold checked_waitpid. sat_go ltac:(apply sat_die). Qed.

Lemma sat_write_stderr k s n : sat (write_stderr k s n) quiet.
Proof. unfold write_stderr. sat_go idtac. Qed.

Lemma sat_perror k s : sat (perror k s) quiet.
Proof. unfold perror. sat_go idtac. Qed.

Lemma sat_change_def_handlers k h : sat (change_def_handlers k h) quiet.
Proof. unfold change_def_handlers. sat_go ltac:(apply sat_checked_signal). Qed.

Ltac sat_lib :=
  first [ apply sat_die | apply sat_checked_stdwrite | apply sat_checked_close
        | apply sat_checked_open | apply sat_checked_signal
        | apply sat_checked_setpgrp | apply sat_checked_waitpid
        | apply sat_write_stderr | apply sat_perror
        | apply sat_change_def_handlers ].

Lemma sat_reap k status pgid : sat (reap k status pgid) quiet.
Proof. unfold reap. sat_go sat_lib. Qed.

Ltac leaf_effect :=
  simpl;
  first [ left; split; [reflexivity | first [apply shrinks_refl | apply shrinks_nil_r]]
        | right; split;
          [reflexivity
          | first [ do 3 eexists; unfold add_job; apply shrinks_refl
                  | exists 0, RUNNING, None; apply shrinks_nil_r ] ] ].

Lemma sat_handle_signals k status pgid cmd :
  sat (handle_signals k status pgid cmd) registers.
Proof.
  intros w. unfold handle_signals, incr_next_job. run_shell.
  destruct (WIFSIGNALED status); simpl;
    [|destruct (WIFSTOPPED status); simpl;
      [destruct (get_job_pid (my_jobs w) pgid <? 0); simpl|]];
    try (destruct (negb _); simpl);
    rewrite ?checked_stdwrite_after; unfold after_write; simpl;
    try match goal with
        | |- context [if ?b then _ else _] => destruct b
        end;
    leaf_effect.
Qed.

Lemma sat_jobs_listing k cs :
  sat (fold_right (fun c m => sys k c ;;; m) (ret tt) cs) quiet.
Proof.
  induction cs as [|c cs IH]; simpl.
  - apply sat_ret.
  - apply sat_bind_quiet; [apply sat_sys | intros _; exact IH].
Qed.

Lemma sat_with_job k name argv argc found :
  (forall p, sat (found p) registers) ->
  sat (with_job k name argv argc found) registers.
Proof.
  intros H. unfold with_job. sat_go ltac:(first [sat_lib | apply H]).
Qed.

Ltac sat_sh :=
  first [ sat_lib
        | apply sat_reap
        | apply sat_handle_signals
        | apply sat_jobs_listing
        | apply sat_with_job; intros; sat_go sat_sh ].

Lemma sat_exec_builtins k argv argc :
  sat (exec_builtins k argv argc) registers.
Proof. unfold exec_builtins. sat_go sat_sh. Qed.

Lemma sat_run_child k argv tokens redir bg f_index :
  sat (run_child k argv tokens redir bg f_index) quiet.
Proof. unfold run_child. sat_go sat_sh. Qed.

Lemma sat_background_launch k p cmd :
  sat (w <- get_world ;;
       set_jobs (fun l => add_job l (next_job w) p RUNNING cmd) ;;;
       incr_next_job ;;;
       w' <- get_world ;;
       checked_stdwrite k (launch_line (get_job_jid (my_jobs w') p) p))
      registers.
Proof.
  intros w. unfold incr_next_job. run_shell.
  rewrite checked_stdwrite_after. unfold after_write. simpl.
  match goal with |- context [if ?b then _ else _] => destruct b end;
    leaf_effect.
Qed.

Lemma sat_run_prog k argv tokens redir :
  sat (run_prog k argv tokens redir) registers.
Proof.
  unfold run_prog. cbv zeta.
  apply sat_bind_quiet_first; [apply sat_sys|]. intros p.
  apply sat_if; [apply sat_weaken; apply sat_run_child|].
  apply sat_bind_quiet_last.
  - apply sat_if; [apply sat_background_launch|].
    sat_go sat_sh.
  - intros _. sat_go sat_sh.
Qed.

Lemma sat_drain_loop k q : sat (drain_loop k q) quiet.
Proof.
  induction q as [|ps q IH]; simpl; sat_go ltac:(first [sat_sh | exact IH]).
Qed.

Lemma sat_drain k : sat (drain k) quiet.
Proof. intros w. unfold drain. apply sat_drain_loop. Qed.

Lemma returns_zero_bind {A} (m : M A) (f : A -> M Z) :
  (forall a, returns_zero (f a)) -> returns_zero (bind m f).
Proof.
  intros H w r w'. unfold bind.
  destruct (m w) as [a w1| | |]; try discriminate. apply H.
Qed.

Lemma returns_zero_ret : returns_zero (ret 0).
Proof. intros w r w' E. inversion E. reflexivity. Qed.

Lemma returns_zero_exit c : returns_zero (exit_ c).
Proof. intros w r w' E. discriminate E. Qed.

Lemma returns_zero_if (b : bool) x y :
  returns_zero x -> returns_zero y -> returns_zero (if b then x else y).
Proof. destruct b; auto. Qed.

Ltac returns_zero_go :=
  repeat first [ apply returns_zero_ret | apply returns_zero_exit
               | apply returns_zero_if
               | apply returns_zero_bind; intros ].

(** [exec_builtins] answers -1 only for a command that is no builtin, and
    then it has done nothing. *)
Lemma exec_builtins_not_builtin k argv argc w r w' :
  exec_builtins k argv argc w = Return r w' -> r < 0 -> w' = w.
Proof.
  unfold exec_builtins. destruct (aget argv 0) as [cmd|]; [|discriminate].
  intros E N.
  repeat match type of E with
         | (if strncmp_eq ?a ?b ?n then _ else _) _ = _ =>
             destruct (strncmp_eq a b n)
         end;
    try (inversion E; reflexivity);
    exfalso;
    match type of E with
    | ?m w = _ => assert (Z : returns_zero m) by returns_zero_go
    end;
    apply Z in E; lia.
Qed.

Lemma sat_dispatch k argv tokens redir argc :
  sat (dispatch k argv tokens redir argc) registers.
Proof.
  intros w. unfold dispatch, bind at 1.
  pose proof (sat_exec_builtins k argv argc w) as H.
  destruct (exec_builtins k argv argc w) as [r w1| | |] eqn:E;
    simpl in H; try exact H.
  destruct (Z.ltb_spec r 0) as [N|N].
  - apply (exec_builtins_not_builtin _ _ _ _ _ _ E) in N. subst w1.
    assert (S : sat (run_prog k argv tokens redir ;;; ret tt) registers)
      by (apply sat_bind_quiet_last; [apply sat_run_prog | intros; apply sat_ret]).
    apply S.
  - exact H.
Qed.

Lemma sat_main_iteration k prompt : sat (main_iteration k prompt) registers.
Proof.
  unfold main_iteration.
  sat_go ltac:(first [sat_sh | apply sat_drain | apply sat_dispatch]).
Qed.

Lemma sat_exec_op k o : sat (exec_op k o) registers.
Proof.
  destruct o; simpl.
  - apply sat_weaken. apply sat_arrive.
  - apply sat_weaken. apply sat_drain.
  - apply sat_bind_quiet_last; [apply sat_exec_builtins | intros; apply sat_ret].
  - apply sat_bind_quiet_last; [apply sat_run_prog | intros; apply sat_ret].
  - apply sat_main_iteration.
Qed.

(** *** One step, then a whole session *)

Lemma wrap_int_small z : - 2147483648 <= z <= INT_MAX -> wrap_int z = z.
Proof.
  unfold wrap_int, INT_MAX. intros H.
  rewrite Z.mod_small by lia. lia.
Qed.

Lemma sorted_app (l1 l2 : list Z) :
  StronglySorted Z.lt l1 -> StronglySorted Z.lt l2 ->
  (forall x y, In x l1 -> In y l2 -> x < y) ->
  StronglySorted Z.lt (l1 ++ l2).
Proof.
  induction l1 as [|a l1 IH]; simpl; intros S1 S2 H; [exact S2|].
  inversion S1 as [|? ? Sa Fa]; subst. constructor.
  - apply IH; auto.
  - apply Forall_app. split; [exact Fa|].
    apply Forall_forall. intros y Iy. apply H; auto.
Qed.

Lemma sorted_filter (f : job -> bool) l :
  StronglySorted Z.lt (map jid l) ->
  StronglySorted Z.lt (map jid (filter f l)).
Proof.
  induction l as [|x r IH]; simpl; intros S; [constructor|].
  inversion S as [|? ? Sr Fr]; subst.
  destruct (f x); simpl; [|auto].
  constructor; [auto|].
  rewrite Forall_forall in *. intros y Iy. apply Fr.
  apply in_map_iff in Iy. destruct Iy as (j & E & Ij).
  apply filter_In in Ij. apply in_map_iff. exists j. tauto.
Qed.

Lemma existsb_same_job j l j0 :
  In j0 l -> jid j0 = jid j -> pid j0 = pid j ->
  existsb (same_job j) l = true.
Proof.
  intros I A B. apply existsb_exists. exists j0. split; [exact I|].
  unfold same_job. rewrite A, B, !Z.eqb_refl. reflexivity.
Qed.

Lemma registers_step w w' :
  reg_ok w -> 1 <= next_job w < INT_MAX -> registers w w' ->
  reg_ok w' /\
  next_job w <= next_job w' <= next_job w + 1 /\
  (forall j, In j (registered_by w w') ->
             jid j = next_job w /\ next_job w' = next_job w + 1).
Proof.
  intros [S F] B [[N K]|(N & p & s & c & K)].
  - split; [|split].
    + split; [eapply shrinks_sorted; eauto|].
      rewrite N. eapply shrinks_Forall; eauto.
    + lia.
    + intros j I. apply filter_In in I. destruct I as [I E].
      destruct (shrinks_In _ _ K j I) as (j0 & I0 & A & C).
      rewrite (existsb_same_job j _ j0 I0 A C) in E. discriminate E.
  - rewrite wrap_int_small in N by (unfold INT_MAX in *; lia).
    assert (S' : StronglySorted Z.lt
                   (map jid (add_job (my_jobs w) (next_job w) p s c))).
    { unfold add_job. rewrite map_app. simpl. apply sorted_app.
      - exact S.
      - repeat constructor.
      - intros x y Ix [Iy|[]]. subst y.
        rewrite Forall_forall in F. apply F. exact Ix. }
    assert (F' : Forall (fun j => j < next_job w')
                   (map jid (add_job (my_jobs w) (next_job w) p s c))).
    { unfold add_job. rewrite map_app. simpl. apply Forall_app. split.
      - eapply Forall_impl; [|exact F]. simpl. intros. lia.
      - repeat constructor. lia. }
    split; [|split].
    + split; [eapply shrinks_sorted; eauto | eapply shrinks_Forall; eauto].
    + lia.
    + intros j I. apply filter_In in I. destruct I as [I E].
      destruct (shrinks_In _ _ K j I) as (j0 & I0 & A & C).
      unfold add_job in I0. apply in_app_or in I0. destruct I0 as [I0|[I0|[]]].
      * rewrite (existsb_same_job j _ j0 I0 A C) in E. discriminate E.
      * subst j0. simpl in A. split; [congruence | exact N].
Qed.

Lemma session_job_ids k ops : forall w,
  reg_ok w -> 1 <= next_job w ->
  next_job w + Z.of_nat (List.length ops) <= INT_MAX ->
  StronglySorted Z.lt (assigned_ids (session k ops w)) /\
  Forall (fun j => next_job w <= j) (assigned_ids (session k ops w)) /\
  (forall w1 w2, In (w1, w2) (session k ops w) ->
     reg_ok w2 /\
     forall j, In j (registered_by w1 w2) ->
               ~ In (jid j) (map jid (my_jobs w1))).
Proof.
  induction ops as [|o ops IH]; intros w R L B.
  - simpl. split; [constructor|]. split; [constructor|].
    intros w1 w2 [].
  - change (List.length (o :: ops)) with (S (List.length ops)) in B.
    assert (B1 : 1 <= next_job w < INT_MAX) by lia.
    pose proof (registers_step w _ R B1 (sat_exec_op k o w)) as (R' & N & G).
    assert (Fresh : forall j, In j (registered_by w (final (exec_op k o w))) ->
                              ~ In (jid j) (map jid (my_jobs w))).
    { intros j I H. destruct (G j I) as [E _].
      destruct R as [_ F]. rewrite Forall_forall in F.
      specialize (F _ H). lia. }
    assert (Sorted1 : StronglySorted Z.lt
              (map jid (registered_by w (final (exec_op k o w))))).
    { apply sorted_filter. apply R'. }
    assert (Low1 : Forall (fun j => next_job w <= j)
              (map jid (registered_by w (final (exec_op k o w))))).
    { apply Forall_forall. intros x Ix. apply in_map_iff in Ix.
      destruct Ix as (j & E & Ij). destruct (G j Ij). lia. }
    simpl. destruct (exec_op k o w) as [[] w'|c w'|w'|w'] eqn:E; simpl in *.
    + destruct (IH w' R' ltac:(lia) ltac:(lia)) as (S2 & L2 & P2).
      split; [|split].
      * unfold assigned_ids in *. simpl. apply sorted_app; auto.
        intros x y Ix Iy. apply in_map_iff in Ix.
        destruct Ix as (j & Ej & Ij). destruct (G j Ij) as [A C].
        rewrite Forall_forall in L2. specialize (L2 y Iy). lia.
      * unfold assigned_ids in *. simpl. apply Forall_app. split; [exact Low1|].
        eapply Forall_impl; [|exact L2]. simpl. intros. lia.
      * intros w1 w2 [H|H]; [inversion H; subst; auto | apply P2; exact H].
    + unfold assigned_ids. simpl. rewrite app_nil_r.
      split; [exact Sorted1 | split; [exact Low1|]].
      intros w1 w2 [H|[]]. inversion H; subst. auto.
    + unfold assigned_ids. simpl. rewrite app_nil_r.
      split; [exact Sorted1 | split; [exact Low1|]].
      intros w1 w2 [H|[]]. inversion H; subst. auto.
    + unfold assigned_ids. simpl. rewrite app_nil_r.
      split; [exact Sorted1 | split; [exact Low1|]].
      intros w1 w2 [H|[]]. inversion H; subst. auto.
Qed.

Lemma sorted_NoDup (l : list Z) : StronglySorted Z.lt l -> NoDup l.
Proof.
  induction 1 as [|a l S IH F]; constructor; [|exact IH].
  intros I. rewrite Forall_forall in F. specialize (F a I). lia.
Qed.

(** C7: in a session that starts from [main]'s initial state and is
    short enough for [next_job] to stay an [int], the job ids given out,
    in the order in which the jobs are registered, are strictly
    increasing; an id given to a new job is held by no job registered at
    that moment; and no two jobs in the list ever share an id. *)
Theorem job_ids_strictly_increasing k ops :
  Z.of_nat (List.length ops) < INT_MAX ->
  StronglySorted Z.lt (assigned_ids (session k ops initial_world)) /\
  (forall w w' j,
     In (w, w') (session k ops initial_world) ->
     In j (registered_by w w') ->
     ~ In (jid j) (map jid (my_jobs w))) /\
  (forall w w',
     In (w, w') (session k ops initial_world) ->
     NoDup (map jid (my_jobs w'))).
Proof.
  intros B.
  assert (R0 : reg_ok initial_world) by (split; constructor).
  destruct (session_job_ids k ops initial_world R0) as (S & _ & P).
  - change (next_job initial_world) with 1. lia.
  - change (next_job initial_world) with 1. lia.
  - split; [exact S|]. split.
    + intros w w' j I. apply (P w w' I).
    + intros w w' I. apply sorted_NoDup. apply (P w w' I).
Qed.

Lemma job_ids_strictly_increasing_witness :
  StronglySorted Z.lt
    (assigned_ids (session busy_kernel sample_session initial_world)) /\
  (forall w w' j,
     In (w, w') (session busy_kernel sample_session initial_world) ->
     In j (registered_by w w') ->
     ~ In (jid j) (map jid (my_jobs w))) /\
  (forall w w',
     In (w, w') (session busy_kernel sample_session initial_world) ->
     NoDup (map jid (my_jobs w'))).
Proof.
  apply (job_ids_strictly_increasing busy_kernel sample_session).
  reflexivity.
Defined.

(** The ids given out in that session, and the job list at its end. *)
Example sample_session_ids :
  assigned_ids (session busy_kernel sample_session initial_world) = [1; 2; 3]
  /\ map (fun s => map (fun j => (jid j, pid j, state j)) (my_jobs (snd s)))
         (session busy_kernel sample_session initial_world)
     = [ [(1, 100, RUNNING)];
         [(1, 100, RUNNING); (2, 104, STOPPED)];
         [(1, 100, RUNNING); (2, 104, STOPPED)];
         [(2, 104, STOPPED)];
         [(2, 104, STOPPED); (3, 112, RUNNING)] ].
Proof. vm_compute. split; reflexivity. Qed.

(* ===================================================================== *)
(** * Further properties of the code                                     *)
(* ===================================================================== *)

(** ** parsing.c *)

Section ParseMore.
Import Parsing.

Lemma strncmp_eq_iff b : forall a n,
  (String.length b < n)%nat -> strncmp_eq a b n = true <-> a = b.
Proof.
  induction b as [|d b IH]; intros a n L;
    (destruct n as [|n]; [simpl in L; lia|]); destruct a as [|c a]; simpl.
  - tauto.
  - split; discriminate.
  - split; discriminate.
  - simpl in L. destruct (Ascii.eqb_spec c d) as [E|E].
    + subst d. pose proof (IH a n ltac:(lia)) as [F G].
      split; intros H; [f_equal; auto | apply G; congruence].
    + split; [discriminate | intros H; congruence].
Qed.

Lemma id_rd_tok_cases tok :
  (tok = Some "<" /\ id_rd_tok tok = 0) \/
  (tok = Some ">" /\ id_rd_tok tok = 1) \/
  (tok = Some ">>" /\ id_rd_tok tok = 2) \/
  (tok <> Some "<" /\ tok <> Some ">" /\ tok <> Some ">>" /\
   id_rd_tok tok = -1).
Proof.
  destruct tok as [t|]; simpl.
  2:{ right. right. right. repeat split; discriminate. }
  destruct (strncmp_eq t "<" 2) eqn:A.
  { apply strncmp_eq_iff in A; [|simpl; lia]. subst. auto. }
  destruct (strncmp_eq t ">" 2) eqn:B.
  { apply strncmp_eq_iff in B; [|simpl; lia]. subst. auto. }
  destruct (strncmp_eq t ">>" 3) eqn:C.
  { apply strncmp_eq_iff in C; [|simpl; lia]. subst. auto 6. }
  right. right. right. repeat split; try reflexivity; intros E;
    inversion E; subst; discriminate.
Qed.

(** X1: [id_rd_tok] answers 0, 1, 2 for exactly the tokens "<", ">",
    ">>" and -1 for everything else, NULL included. *)
Theorem id_rd_tok_recognizes tok :
  (tok = Some "<" /\ id_rd_tok tok = 0) \/
  (tok = Some ">" /\ id_rd_tok tok = 1) \/
  (tok = Some ">>" /\ id_rd_tok tok = 2) \/
  (tok <> Some "<" /\ tok <> Some ">" /\ tok <> Some ">>" /\
   id_rd_tok tok = -1).
Proof. exact (id_rd_tok_cases tok). Qed.

Lemma handle_redir_plain tok p i :
  id_rd_tok tok = -1 -> handle_redir tok p i = RedirTok tok p.
Proof.
  funelim (handle_redir tok p i); intros Hplain; try reflexivity;
    match goal with
    | E : (0 <=? id_rd_tok _) = true |- _ =>
        pose proof E as X; rewrite Hplain in X; discriminate X
    end.
Qed.

Lemma parse_finish_value i p : parse_finish i p = (Z.of_nat i - 1, p).
Proof.
  unfold parse_finish. destruct (aget (argv p) (i - 2)); [|reflexivity].
  destruct (negb _); reflexivity.
Qed.


Lemma fields_all_delims s :
  all_delims s = true -> Forall (fun t => t = EmptyString) (fields s).
Proof.
  induction s as [|c s IH]; simpl; intros H.
  - repeat constructor.
  - apply andb_true_iff in H. destruct H as [D A]. rewrite D.
    constructor; [reflexivity | auto].
Qed.

Lemma tokenize_all_delims s : all_delims s = true -> tokenize s = [].
Proof.
  intros H. unfold tokenize. pose proof (fields_all_delims s H) as F.
  induction F as [|t l E F IH]; simpl; [reflexivity|].
  subst t. simpl. exact IH.
Qed.

(** X2: a buffer of blanks and tabs only (or an empty one) makes [parse]
    return -1 with the arrays untouched and nothing written. *)
Theorem parse_blank_line buffer tokens argv redir :
  all_delims buffer = true ->
  parse buffer tokens argv redir = (-1, mkP [] tokens argv 0 redir []).
Proof.
  intros H. unfold parse. rewrite (tokenize_all_delims _ H). simpl.
  rewrite handle_redir_plain by reflexivity. reflexivity.
Qed.

Lemma plain_token t : not_redir_symbol t -> id_rd_tok (Some t) = -1.
Proof.
  intros (A & B & C).
  destruct (id_rd_tok_cases (Some t))
    as [[E _]|[[E _]|[[E _]|(_ & _ & _ & E)]]];
    try (inversion E; subst; contradiction). exact E.
Qed.

Lemma aset_length {A} (l : list A) i v : List.length (aset l i v) = List.length l.
Proof.
  revert i. induction l as [|x r IH]; intros [|i]; simpl; auto.
Qed.

Lemma firstn_S_aset {A} (l : list A) i v :
  (i < List.length l)%nat ->
  firstn (S i) (aset l i v) = (firstn i l ++ [v])%list.
Proof.
  revert i. induction l as [|x r IH]; intros [|i] L; simpl in *; try lia.
  - reflexivity.
  - f_equal. apply IH. lia.
Qed.

Lemma firstn_aset_seq {A} (vs : list A) : forall l i,
  (i + List.length vs <= List.length l)%nat ->
  firstn (i + List.length vs) (aset_seq l i vs) = (firstn i l ++ vs)%list.
Proof.
  induction vs as [|v r IH]; intros l i L; simpl in *.
  - rewrite Nat.add_0_r, app_nil_r. reflexivity.
  - replace (i + S (List.length r))%nat with (S i + List.length r)%nat by lia.
    rewrite IH by (rewrite aset_length; lia).
    rewrite firstn_S_aset by lia. rewrite <- app_assoc. reflexivity.
Qed.

Lemma parse_loop_plain ts : forall n i p,
  Forall not_redir_symbol ts -> (List.length ts < n)%nat -> saved p = ts ->
  parse_loop n i p =
  (Z.of_nat (i + List.length ts),
   mkP [] (aset_seq (tokens p) (i + offset p) (map Some ts ++ [None]))
       (aset_seq (argv p) i (map Some ts ++ [None]))
       (offset p) (redir p) (perr p)).
Proof.
  induction ts as [|t ts IH]; intros n i p F L S;
    (destruct n as [|n]; [simpl in L; lia|]);
    destruct p as [sv tk av off rd pe]; simpl in S; subst sv; simpl.
  - rewrite handle_redir_plain by reflexivity.
    rewrite parse_finish_value. f_equal.
    change (List.length (@nil string)) with 0%nat. lia.
  - inversion F as [|? ? Ft Fts]; subst.
    rewrite handle_redir_plain by (apply plain_token; exact Ft).
    rewrite (IH n (S i)); [|exact Fts | simpl in L; lia | reflexivity].
    f_equal. change (List.length (t :: ts)) with (S (List.length ts)). lia.
Qed.

Lemma strrchr_some s c r :
  strrchr s c = Some r ->
  exists pre base,
    s = pre ++ String c base /\ r = String c base /\
    ~ In c (list_ascii_of_string base).
Proof.
  revert r. induction s as [|d s IH]; simpl; intros r H; [discriminate|].
  destruct (strrchr s c) as [r'|] eqn:E.
  - inversion H; subst r'. destruct (IH r eq_refl) as (pre & base & A & B & C).
    exists (String d pre), base. simpl. rewrite <- A. auto.
  - destruct (Ascii.eqb_spec d c) as [F|F]; [|discriminate].
    inversion H; subst. exists EmptyString, s. repeat split.
    clear - E. induction s as [|e s IH]; simpl in *; [tauto|].
    destruct (strrchr s c); [discriminate|].
    destruct (Ascii.eqb_spec e c); [discriminate|].
    intros [G|G]; [congruence | exact (IH eq_refl G)].
Qed.

Lemma strrchr_first c s : exists r, strrchr (String c s) c = Some r.
Proof.
  simpl. destruct (strrchr s c); [eauto|]. rewrite Ascii.eqb_refl. eauto.
Qed.

Lemma parse_plain buffer tokens argv redir c ts :
  tokenize buffer = c :: ts ->
  Forall not_redir_symbol (c :: ts) ->
  (List.length ts < 511)%nat ->
  List.length tokens = 512%nat -> List.length argv = 512%nat ->
  let p := snd (parse buffer tokens argv redir) in
  fst (parse buffer tokens argv redir) = Z.of_nat (S (List.length ts)) /\
  firstn (List.length ts + 2) (Parsing.tokens p)
    = (Some c :: map Some ts ++ [None])%list /\
  (exists a0,
     firstn (List.length ts + 2) (Parsing.argv p)
       = (Some a0 :: map Some ts ++ [None])%list /\
     (starts_with_slash c = false -> a0 = c) /\
     (starts_with_slash c = true ->
      exists dir base,
        c = dir ++ String slash base /\ a0 = String slash base /\
        ~ In slash (list_ascii_of_string base))) /\
  Parsing.redir p = redir /\ Parsing.perr p = [].
Proof.
  intros T F L Lt La. inversion F as [|? ? Fc Fts]; subst.
  unfold parse. rewrite T. cbn [strtok_next].
  rewrite handle_redir_plain by (apply plain_token; exact Fc).
  cbn [offset].
  match goal with
  | |- context [parse_loop 511 1 ?q] =>
      assert (A0 : exists a0,
        q = mkP ts (aset tokens 0 (Some c)) (aset argv 0 (Some a0)) 0 redir []
        /\ (starts_with_slash c = false -> a0 = c)
        /\ (starts_with_slash c = true ->
            exists dir base,
              c = dir ++ String slash base /\ a0 = String slash base /\
              ~ In slash (list_ascii_of_string base)))
  end.
  { destruct c as [|ch c'].
    - exists EmptyString.
      split; [|split; [reflexivity | discriminate]].
      unfold set_argv, set_token. simpl. destruct argv; reflexivity.
    - unfold starts_with_slash. destruct (Ascii.eqb_spec ch slash) as [E|E].
      + subst ch. destruct (strrchr_first slash c') as [r R].
        exists r. rewrite R. split; [|split; [discriminate|]].
        * unfold set_argv, set_token. simpl. destruct argv; reflexivity.
        * intros _. destruct (strrchr_some _ _ _ R) as (pre & base & A & B & C).
          exists pre, base. auto.
      + exists (String ch c'). split; [|split; [reflexivity | discriminate]].
        unfold set_argv, set_token. simpl. destruct argv; reflexivity. }
  destruct A0 as (a0 & E & P1 & P2).
  rewrite E.
  rewrite (parse_loop_plain ts 511 1); [|exact Fts | exact L | reflexivity].
  cbn [fst snd Parsing.tokens Parsing.argv Parsing.redir Parsing.perr offset].
  split; [f_equal; lia|].
  assert (Len : List.length (map Some ts ++ [@None string]) = (List.length ts + 1)%nat)
    by (rewrite length_app, length_map; reflexivity).
  split; [|split; [|split; reflexivity]].
  - replace (List.length ts + 2)%nat
      with (1 + 0 + List.length (map Some ts ++ [@None string]))%nat by lia.
    rewrite firstn_aset_seq by (rewrite aset_length; lia).
    change (1 + 0)%nat with 1%nat. rewrite firstn_S_aset by lia. reflexivity.
  - exists a0. split; [|split; assumption].
    replace (List.length ts + 2)%nat
      with (1 + List.length (map Some ts ++ [@None string]))%nat by lia.
    rewrite firstn_aset_seq by (rewrite aset_length; lia).
    rewrite firstn_S_aset by lia. reflexivity.
Qed.

(** X3: a line of at most 511 tokens none of which is a redirection
    symbol: [parse] returns the number of tokens, [tokens] holds them
    followed by NULL, [argv] holds the same except that a first token that
    starts with '/' is replaced by its part from the last '/' on; [redir]
    is untouched and nothing is written. *)
Theorem parse_plain_command buffer tokens argv redir c ts :
  tokenize buffer = c :: ts ->
  Forall not_redir_symbol (c :: ts) ->
  (List.length ts < 511)%nat ->
  List.length tokens = 512%nat -> List.length argv = 512%nat ->
  let p := snd (parse buffer tokens argv redir) in
  fst (parse buffer tokens argv redir) = Z.of_nat (S (List.length ts)) /\
  firstn (List.length ts + 2) (Parsing.tokens p)
    = (Some c :: map Some ts ++ [None])%list /\
  (exists a0,
     firstn (List.length ts + 2) (Parsing.argv p)
       = (Some a0 :: map Some ts ++ [None])%list /\
     (starts_with_slash c = false -> a0 = c) /\
     (starts_with_slash c = true ->
      exists dir base,
        c = dir ++ String slash base /\ a0 = String slash base /\
        ~ In slash (list_ascii_of_string base))) /\
  Parsing.redir p = redir /\ Parsing.perr p = [].
Proof. exact (parse_plain buffer tokens argv redir c ts). Qed.

Lemma parse_loop_range n : forall i p,
  fst (parse_loop n i p) = -1 \/
  Z.of_nat i - 1 <= fst (parse_loop n i p) <= Z.of_nat i + Z.of_nat n - 1.
Proof.
  induction n as [|n IH]; intros i p.
  - right. simpl parse_loop. rewrite parse_finish_value. cbn [fst]. lia.
  - simpl parse_loop. destruct (strtok_next (saved p)) as [t sv].
    destruct (handle_redir t (set_saved sv p) i) as [p'|[tok|] p'].
    + left. reflexivity.
    + destruct (IH (S i) (set_argv i (Some tok)
                            (set_token (i + offset p') (Some tok) p')))
        as [E|E]; [left; exact E | right]. lia.
    + right. rewrite parse_finish_value. cbn [fst]. lia.
Qed.

Lemma parse_loop_range_S n i p :
  fst (parse_loop (S n) i p) = -1 \/
  Z.of_nat i <= fst (parse_loop (S n) i p) <= Z.of_nat i + Z.of_nat n.
Proof.
  simpl parse_loop. destruct (strtok_next (saved p)) as [t sv].
  destruct (handle_redir t (set_saved sv p) i) as [p'|[tok|] p'].
  - left. reflexivity.
  - destruct (parse_loop_range n (S i)
                (set_argv i (Some tok)
                   (set_token (i + offset p') (Some tok) p')))
      as [E|E]; [left; exact E | right]. lia.
  - right. rewrite parse_finish_value. cbn [fst]. lia.
Qed.

Lemma parse_range buffer tokens argv redir :
  fst (parse buffer tokens argv redir) = -1 \/
  1 <= fst (parse buffer tokens argv redir) <= 511.
Proof.
  unfold parse. destruct (strtok_next (tokenize buffer)) as [first sv].
  destruct (handle_redir first _ 0) as [p'|[t|] p']; try (left; reflexivity).
  match goal with
  | |- context [parse_loop 511 1 ?q] =>
      destruct (parse_loop_range_S 510 1 q) as [E|E]
  end; [left; exact E | right]. lia.
Qed.

(** X4: [parse] returns -1 or a count between 1 and 511, never 0 and
    never 512. *)
Theorem parse_return_range buffer tokens argv redir :
  fst (parse buffer tokens argv redir) = -1 \/
  1 <= fst (parse buffer tokens argv redir) <= 511.
Proof. exact (parse_range buffer tokens argv redir). Qed.

Ltac split_matches :=
  repeat match goal with
         | |- context [let (_, _) := ?x in _] => destruct x
         | |- context [if ?b then _ else _] => destruct b
         | |- context [match ?x with Some _ => _ | None => _ end] => destruct x
         | |- context [match ?x with O => _ | S _ => _ end] => destruct x
         end.

Lemma set_tok_argv tok mode i p :
  Parsing.argv (set_state (set_tok tok mode i p)) = Parsing.argv p.
Proof. unfold set_tok. split_matches; reflexivity. Qed.

Lemma handle_redir_argv tok p i :
  Parsing.argv (redir_state (handle_redir tok p i)) = Parsing.argv p.
Proof.
  funelim (handle_redir tok p i); [reflexivity| |];
    match goal with
    | H : set_tok tok _ i p = _ |- _ =>
        pose proof (set_tok_argv tok (id_rd_tok tok) i p) as S;
        rewrite H in S; cbn [set_state] in S
    end.
  - exact S.
  - rewrite <- S. assumption.
Qed.

Lemma aget_aset_other l i j v : i <> j -> aget (aset l i v) j = aget l j.
Proof.
  unfold aget. revert i j.
  induction l as [|x r IH]; intros [|i] [|j] H; simpl; try reflexivity.
  - contradiction.
  - apply IH. congruence.
Qed.

Lemma parse_loop_argv0 n : forall i p,
  (1 <= i)%nat ->
  aget (Parsing.argv (snd (parse_loop n i p))) 0 = aget (Parsing.argv p) 0.
Proof.
  induction n as [|n IH]; intros i p L; simpl parse_loop.
  - rewrite parse_finish_value. reflexivity.
  - destruct (strtok_next (saved p)) as [t sv].
    pose proof (handle_redir_argv t (set_saved sv p) i) as H.
    destruct (handle_redir t (set_saved sv p) i) as [p'|tok p'];
      cbn [redir_state] in H; cbn [snd].
    + rewrite H. reflexivity.
    + assert (E : aget (Parsing.argv
                          (set_argv i tok (set_token (i + offset p') tok p'))) 0
                  = aget (Parsing.argv p) 0).
      { unfold set_argv, set_token. cbn [Parsing.argv].
        rewrite aget_aset_other by lia. rewrite H. reflexivity. }
      destruct tok; [rewrite IH by lia | rewrite parse_finish_value; cbn [snd]];
        exact E.
Qed.

Lemma parse_success_argv0 buffer tokens argv redir :
  argv <> [] ->
  0 <= fst (parse buffer tokens argv redir) ->
  exists a, aget (Parsing.argv (snd (parse buffer tokens argv redir))) 0 = Some a.
Proof.
  intros N. unfold parse.
  destruct (strtok_next (tokenize buffer)) as [first sv].
  pose proof (handle_redir_argv first (mkP sv tokens argv 0 redir []) 0) as H.
  destruct (handle_redir first _ 0) as [p'|[t|] p']; cbn [redir_state] in H;
    try (cbn [fst]; lia).
  intros _. rewrite parse_loop_argv0 by lia.
  cbn [Parsing.argv] in H.
  destruct argv as [|x argv]; [contradiction|].
  destruct t as [|c t].
  - unfold set_argv, set_token. cbn [Parsing.argv]. rewrite H. unfold aget. simpl. eauto.
  - destruct (strrchr_first c t) as [r R].
    destruct (Ascii.eqb_spec c slash) as [E|E].
    + subst c. rewrite R. unfold set_argv, set_token. cbn [Parsing.argv].
      rewrite H. unfold aget. simpl. eauto.
    + unfold set_argv, set_token. cbn [Parsing.argv]. rewrite H. unfold aget. simpl. eauto.
Qed.

Lemma iget_aset_other l i j v : i <> j -> iget (aset l i v) j = iget l j.
Proof.
  unfold iget. revert i j.
  induction l as [|x r IH]; intros [|i] [|j] H; simpl; try reflexivity.
  - contradiction.
  - apply IH. congruence.
Qed.

Lemma iget_aset_same l i v :
  iget (aset l i v) i = v \/ iget (aset l i v) i = iget l i.
Proof.
  unfold iget. revert i.
  induction l as [|x r IH]; intros [|i]; simpl; auto.
Qed.

Local Arguments iget : simpl never.
Local Arguments aset : simpl never.

Lemma set_tok_redir_cases tok mode i p :
  Parsing.redir (set_state (set_tok tok mode i p)) = Parsing.redir p \/
  (exists v,
     0 < v /\
     Parsing.redir (set_state (set_tok tok mode i p))
       = aset (Parsing.redir p) (Z.to_nat mode) v /\
     (mode =? 0) && negb (iget (Parsing.redir p) 0 =? 0) = false /\
     ((mode =? 1) || (mode =? 2))
       && negb (iget (Parsing.redir p) 1 + iget (Parsing.redir p) 2 =? 0)
     = false).
Proof.
  unfold set_tok. destruct p as [sv tk av off rd pe]. simpl.
  destruct sv as [|f sv]; simpl.
  - left. split_matches; reflexivity.
  - repeat match goal with
           | |- context [set_state (if ?b then _ else _)] => destruct b eqn:?
           end;
      try (left; reflexivity).
    right. exists (Z.of_nat (i + S off)).
    split; [lia|]. split; [|split].
    + destruct sv as [|t sv]; destruct i; reflexivity.
    + reflexivity.
    + reflexivity.
Qed.

Lemma set_tok_redir_wf tok mode i p :
  0 <= mode <= 2 -> redir_wf (Parsing.redir p) ->
  redir_wf (Parsing.redir (set_state (set_tok tok mode i p))).
Proof.
  intros M W.
  destruct (set_tok_redir_cases tok mode i p) as [E|(v & V & E & A & B)];
    rewrite E; [exact W|].
  destruct W as (W1 & W2 & W3). unfold redir_wf.
  assert (mode = 0 \/ mode = 1 \/ mode = 2) as [F|[F|F]] by lia; subst mode;
    simpl in B.
  - change (Z.to_nat 0) with 0%nat.
    rewrite !iget_aset_other by lia. auto.
  - change (Z.to_nat 1) with 1%nat.
    apply negb_false_iff, Z.eqb_eq in B.
    rewrite (iget_aset_other _ 1 2) by lia.
    destruct (iget_aset_same (Parsing.redir p) 1 v) as [S|S];
      rewrite S; repeat split; try lia.
  - change (Z.to_nat 2) with 2%nat.
    apply negb_false_iff, Z.eqb_eq in B.
    rewrite (iget_aset_other _ 2 1) by lia.
    destruct (iget_aset_same (Parsing.redir p) 2 v) as [S|S];
      rewrite S; repeat split; try lia.
Qed.

Lemma handle_redir_redir_wf tok p i :
  redir_wf (Parsing.redir p) ->
  redir_wf (Parsing.redir (redir_state (handle_redir tok p i))).
Proof.
  funelim (handle_redir tok p i); intros W; [exact W| |];
    pose proof (id_rd_tok_range tok) as R;
    match goal with
    | H : (0 <=? id_rd_tok tok) = true |- _ =>
        pose proof (proj1 (Z.leb_le _ _) H) as L
    end;
    match goal with
    | H : set_tok tok _ i p = _ |- _ =>
        pose proof (set_tok_redir_wf tok (id_rd_tok tok) i p ltac:(lia) W) as S;
        rewrite H in S; cbn [set_state] in S
    end.
  - exact S.
  - auto.
Qed.

Lemma parse_loop_redir_wf n : forall i p,
  redir_wf (Parsing.redir p) ->
  redir_wf (Parsing.redir (snd (parse_loop n i p))).
Proof.
  induction n as [|n IH]; intros i p W; simpl parse_loop.
  - rewrite parse_finish_value. exact W.
  - destruct (strtok_next (saved p)) as [t sv].
    pose proof (handle_redir_redir_wf t (set_saved sv p) i W) as H.
    destruct (handle_redir t (set_saved sv p) i) as [p'|tok p'];
      cbn [redir_state] in H; cbn [snd]; [exact H|].
    destruct tok; [apply IH | rewrite parse_finish_value]; exact H.
Qed.

(** X6: [parse] never leaves both an output and an append file in
    [redir]: if the two slots are not both taken before the call, they
    are not both taken after it. *)
Theorem parse_output_append_exclusive buffer tokens argv redir :
  redir_wf redir ->
  redir_wf (Parsing.redir (snd (parse buffer tokens argv redir))).
Proof.
  intros W. unfold parse.
  destruct (strtok_next (tokenize buffer)) as [first sv].
  pose proof (handle_redir_redir_wf first (mkP sv tokens argv 0 redir []) 0 W)
    as H.
  destruct (handle_redir first _ 0) as [p'|[t|] p']; cbn [redir_state] in H;
    try exact H.
  apply parse_loop_redir_wf.
  destruct t as [|c t]; [|destruct (Ascii.eqb c slash)]; exact H.
Qed.


Lemma set_tok_perr tok mode i p :
  match set_tok tok mode i p with
  | SetOk _ p' => perr p' = perr p
  | SetErr p' => (List.length (perr p') <= S (List.length (perr p)))%nat
  end.
Proof.
  unfold set_tok. destruct p as [sv tk av off rd pe].
  split_matches; simpl; rewrite ?length_app; simpl; try reflexivity; lia.
Qed.

Lemma handle_redir_perr tok p i :
  match handle_redir tok p i with
  | RedirTok _ p' => perr p' = perr p
  | RedirErr p' => (List.length (perr p') <= S (List.length (perr p)))%nat
  end.
Proof.
  funelim (handle_redir tok p i); [reflexivity| |];
    match goal with
    | H : set_tok tok _ i p = _ |- _ =>
        pose proof (set_tok_perr tok (id_rd_tok tok) i p) as S;
        rewrite H in S
    end.
  - exact S.
  - destruct (handle_redir tok' p' i); rewrite <- S; assumption.
Qed.

Lemma parse_loop_perr n : forall i p,
  (0 <= fst (parse_loop n i p) ->
   perr (snd (parse_loop n i p)) = perr p) /\
  (List.length (perr (snd (parse_loop n i p))) <= S (List.length (perr p)))%nat.
Proof.
  induction n as [|n IH]; intros i p; simpl parse_loop.
  - rewrite parse_finish_value. cbn [fst snd]. split; [reflexivity | lia].
  - destruct (strtok_next (saved p)) as [t sv].
    pose proof (handle_redir_perr t (set_saved sv p) i) as H.
    destruct (handle_redir t (set_saved sv p) i) as [p'|tok p'];
      cbn [perr set_saved] in H.
    + cbn [fst snd]. split; [lia | exact H].
    + destruct tok as [tok|].
      * destruct (IH (S i) (set_argv i (Some tok)
                              (set_token (i + offset p') (Some tok) p')))
          as [A B].
        cbn [perr set_argv set_token] in A, B. rewrite H in A, B.
        split; assumption.
      * rewrite parse_finish_value. cbn [fst snd perr set_argv set_token].
        rewrite H. split; [reflexivity | lia].
Qed.

(** X7: [parse] writes at most one diagnostic, and none when it
    succeeds. *)
Theorem parse_diagnostics buffer tokens argv redir :
  (0 <= fst (parse buffer tokens argv redir) ->
   perr (snd (parse buffer tokens argv redir)) = []) /\
  (List.length (perr (snd (parse buffer tokens argv redir))) <= 1)%nat.
Proof.
  unfold parse. destruct (strtok_next (tokenize buffer)) as [first sv].
  pose proof (handle_redir_perr first (mkP sv tokens argv 0 redir []) 0) as H.
  destruct (handle_redir first _ 0) as [p'|[t|] p']; cbn [perr] in H;
    cbn [fst snd].
  - split; [lia | exact H].
  - match goal with
    | |- context [parse_loop 511 1 ?q] =>
        destruct (parse_loop_perr 511 1 q) as [A B];
        assert (E : perr q = [])
          by (destruct t as [|c t]; [|destruct (Ascii.eqb c slash)]; exact H)
    end.
    rewrite E in A, B. split; assumption.
  - split; [lia|]. rewrite H. simpl. lia.
Qed.

Lemma aget_aset_same l i v :
  (i < List.length l)%nat -> aget (aset l i v) i = v.
Proof.
  unfold aget. revert i.
  induction l as [|x r IH]; intros [|i] L; simpl in *; try lia.
  - reflexivity.
  - apply IH. lia.
Qed.




End ParseMore.

Lemma parse_blank_line_witness :
  Parsing.parse (String tab "  ") zeroed zeroed [0;0;0;0] =
  (-1, Parsing.mkP [] zeroed zeroed 0 [0;0;0;0] []).
Proof.
  apply (parse_blank_line (String tab "  ") zeroed zeroed [0;0;0;0]).
  reflexivity.
Defined.

Lemma parse_plain_command_witness :
  let p := snd (Parsing.parse "/bin/ls -l  /tmp" zeroed zeroed [0;0;0;0]) in
  fst (Parsing.parse "/bin/ls -l  /tmp" zeroed zeroed [0;0;0;0]) = 3 /\
  firstn 4 (Parsing.tokens p)
    = [Some "/bin/ls"; Some "-l"; Some "/tmp"; None] /\
  (exists a0,
     firstn 4 (Parsing.argv p) = [Some a0; Some "-l"; Some "/tmp"; None] /\
     (starts_with_slash "/bin/ls" = false -> a0 = "/bin/ls") /\
     (starts_with_slash "/bin/ls" = true ->
      exists dir base,
        "/bin/ls" = dir ++ String slash base /\ a0 = String slash base /\
        ~ In slash (list_ascii_of_string base))) /\
  Parsing.redir p = [0;0;0;0] /\ Parsing.perr p = [].
Proof.
  apply (parse_plain_command "/bin/ls -l  /tmp" zeroed zeroed [0;0;0;0]
           "/bin/ls" ["-l"; "/tmp"]).
  - reflexivity.
  - repeat constructor; discriminate.
  - simpl. lia.
  - reflexivity.
  - reflexivity.
Defined.


Lemma parse_output_append_exclusive_witness :
  redir_wf (Parsing.redir
              (snd (Parsing.parse "ls > a >> b" zeroed zeroed [0;0;0;0]))).
Proof.
  apply (parse_output_append_exclusive "ls > a >> b" zeroed zeroed [0;0;0;0]).
  unfold redir_wf, iget. simpl. lia.
Defined.

(** Two lines with redirections, as [parse] leaves them. *)
Example parse_redirection_lines :
  (let '(r, p) := Parsing.parse "ls > a >> b" zeroed zeroed [0;0;0;0] in
   (r, Parsing.redir p, Parsing.perr p))
  = (-1, [0; 2; 0; 0],
     [SysWrite STDERR_FILENO ("syntax error: multiple output files" ++ nl)])
  /\
  (let '(r, p) := Parsing.parse "cat a < in" zeroed zeroed [0;0;0;0] in
   (r, firstn 5 (Parsing.tokens p), firstn 3 (Parsing.argv p), Parsing.redir p))
  = (2, [Some "cat"; Some "a"; Some "<"; Some "in"; None],
     [Some "cat"; Some "a"; None], [3; 0; 0; 0]).
Proof. split; vm_compute; reflexivity. Qed.

Section ParseErrors.
Import Parsing.

Local Arguments id_rd_tok : simpl never.
Local Arguments iget : simpl never.
Local Arguments aset : simpl never.

Lemma set_tok_ok_inv tok mode i p tok' p' :
  set_tok tok mode i p = SetOk tok' p' ->
  exists f rest,
    saved p = f :: rest /\ id_rd_tok (Some f) = -1 /\
    tok' = fst (strtok_next rest) /\ saved p' = snd (strtok_next rest).
Proof.
  unfold set_tok. destruct p as [sv tk av off rd pe]. simpl.
  destruct sv as [|f rest]; simpl.
  - repeat match goal with
           | |- context [if ?b then _ else _] => destruct b
           end; discriminate.
  - pose proof (id_rd_tok_range (Some f)) as R.
    destruct (Z.leb_spec 0 (id_rd_tok (Some f))) as [A|A]; [discriminate|].
    repeat match goal with
           | |- context [set_state] => fail 1
           | |- (if ?b then _ else _) = _ -> _ => destruct b; [discriminate|]
           end.
    intros E. exists f, rest. split; [reflexivity|]. split; [lia|].
    destruct rest as [|t rest]; simpl in *; destruct i; inversion E; subst;
      split; reflexivity.
Qed.

Lemma ends_in_redir_tail x l :
  ends_in_redir (x :: l) -> id_rd_tok (Some x) = -1 -> ends_in_redir l.
Proof.
  intros (pre & s & E & S) P. destruct pre as [|y pre]; simpl in E.
  - inversion E; subst. lia.
  - inversion E; subst. exists pre, s. auto.
Qed.

Lemma ends_in_redir_nonempty l : ends_in_redir l -> l <> [].
Proof. intros (pre & s & E & _) N. subst. destruct pre; discriminate. Qed.

Lemma ends_in_redir_drop x y l :
  ends_in_redir (x :: y :: l) -> ends_in_redir (y :: l).
Proof.
  intros (pre & s & E & S). destruct pre as [|z pre]; simpl in E.
  - inversion E.
  - inversion E; subst. exists pre, s. auto.
Qed.

Lemma handle_redir_trailing tok p i :
  forall t, tok = Some t -> ends_in_redir (t :: saved p) ->
  match handle_redir tok p i with
  | RedirErr _ => True
  | RedirTok tok' p' =>
      (exists t', tok' = Some t') /\ ends_in_redir (saved p') /\
      (List.length (saved p') <= List.length (saved p))%nat
  end.
Proof.
  funelim (handle_redir tok p i); intros t T E.
  - split; [eauto|]. split; [|lia].
    apply (ends_in_redir_tail t); [exact E|].
    pose proof (id_rd_tok_range tok) as R.
    match goal with
    | H : (0 <=? id_rd_tok tok) = false |- _ =>
        pose proof (proj1 (Z.leb_gt _ _) H) as G
    end.
    rewrite T in *. lia.
  - exact I.
  - match goal with
    | H : set_tok _ _ _ _ = SetOk _ _ |- _ =>
        destruct (set_tok_ok_inv _ _ _ _ _ _ H)
          as (f & rest & Sv & Pf & Tk & Sv')
    end.
    rewrite Sv in E. apply ends_in_redir_drop in E.
    pose proof (ends_in_redir_tail _ _ E Pf) as E1.
    destruct rest as [|t' rest]; [exfalso; exact (ends_in_redir_nonempty _ E1 eq_refl)|].
    simpl in Tk, Sv'.
    match goal with
    | IH : forall t0, tok' = Some t0 -> _ |- _ =>
        specialize (IH t' Tk); rewrite Sv' in IH; specialize (IH E1)
    end.
    destruct (handle_redir tok' p' i) as [q|tok'' q]; [exact I|].
    destruct H as (A & B & C). split; [exact A|]. split; [exact B|].
    rewrite Sv. simpl. lia.
Qed.

Lemma parse_loop_trailing n : forall i p,
  ends_in_redir (saved p) -> (List.length (saved p) <= n)%nat ->
  fst (parse_loop n i p) = -1.
Proof.
  induction n as [|n IH]; intros i p E L.
  - exfalso. apply (ends_in_redir_nonempty _ E).
    destruct (saved p); [reflexivity | simpl in L; lia].
  - simpl parse_loop. destruct (saved p) as [|t sv] eqn:S;
      [exfalso; exact (ends_in_redir_nonempty _ E eq_refl)|].
    cbn [strtok_next].
    pose proof (handle_redir_trailing (Some t) (set_saved sv p) i t eq_refl E)
      as H.
    destruct (handle_redir (Some t) (set_saved sv p) i) as [q|tok q];
      [reflexivity|].
    destruct H as ((t' & T) & B & C). subst tok.
    apply IH; cbn [saved set_argv set_token set_saved] in *;
      [exact B | simpl in L; lia].
Qed.

(** X8: a line of at most 512 tokens whose last token is a redirection
    symbol is rejected: [parse] returns -1. *)
Theorem parse_trailing_redirection buffer tokens argv redir pre s :
  tokenize buffer = (pre ++ [s])%list ->
  In s ["<"; ">"; ">>"] ->
  (List.length pre < 512)%nat ->
  fst (parse buffer tokens argv redir) = -1.
Proof.
  intros T S L.
  assert (E : ends_in_redir (tokenize buffer)).
  { exists pre, s. split; [exact T|].
    simpl in S. destruct S as [S|[S|[S|[]]]]; subst s; vm_compute;
      discriminate. }
  assert (Len : (List.length (tokenize buffer) <= 512)%nat)
    by (rewrite T, length_app; simpl; lia).
  unfold parse.
  destruct (tokenize buffer) as [|first sv] eqn:Tk;
    [exfalso; exact (ends_in_redir_nonempty _ E eq_refl)|].
  cbn [strtok_next].
  pose proof (handle_redir_trailing (Some first)
                (mkP sv tokens argv 0 redir []) 0 first eq_refl E) as H.
  destruct (handle_redir (Some first) _ 0) as [q|[t|] q]; try reflexivity.
  destruct H as (_ & B & C). cbn [saved] in C.
  apply parse_loop_trailing.
  - destruct t as [|c t]; [|destruct (Ascii.eqb c slash)]; exact B.
  - simpl in Len.
    destruct t as [|c t]; [|destruct (Ascii.eqb c slash)];
      cbn [saved set_argv set_token]; lia.
Qed.
End ParseErrors.

Lemma parse_trailing_redirection_witness :
  fst (Parsing.parse "cat < in >" zeroed zeroed [0;0;0;0]) = -1.
Proof.
  apply (parse_trailing_redirection "cat < in >" zeroed zeroed [0;0;0;0]
           ["cat"; "<"; "in"] ">").
  - reflexivity.
  - simpl. tauto.
  - simpl. lia.
Defined.

Section ParseRedirs.
Import Parsing.

Lemma iget_aset_eq l i v : (i < List.length l)%nat -> iget (aset l i v) i = v.
Proof.
  unfold iget. revert i.
  induction l as [|x r IH]; intros [|i] L; simpl in *; try lia.
  apply IH. lia.
Qed.

Local Arguments iget : simpl never.
Local Arguments aset : simpl never.
Local Arguments id_rd_tok : simpl never.
Local Arguments andb : simpl never.
Local Arguments orb : simpl never.
Local Arguments negb : simpl never.

Lemma set_tok_ok_redir tok mode i p tok' p' :
  set_tok tok mode i p = SetOk tok' p' -> 0 <= mode <= 2 ->
  exists v,
    0 < v /\ redir p' = aset (redir p) (Z.to_nat mode) v /\
    (mode = 0 -> iget (redir p) 0 = 0) /\
    (mode = 1 \/ mode = 2 -> iget (redir p) 1 + iget (redir p) 2 = 0).
Proof.
  unfold set_tok. destruct p as [sv tk av off rd pe]. simpl.
  destruct sv as [|f rest]; simpl.
  - repeat match goal with
           | |- context [if ?b then _ else _] => destruct b
           end; discriminate.
  - destruct (0 <=? id_rd_tok (Some f)); [discriminate|].
    destruct ((mode =? 0) && negb (iget rd 0 =? 0)) eqn:A; [discriminate|].
    destruct (((mode =? 1) || (mode =? 2))
              && negb (iget rd 1 + iget rd 2 =? 0)) eqn:B; [discriminate|].
    intros E M. exists (Z.of_nat (i + S off)). split; [lia|]. split.
    + destruct rest as [|t rest]; simpl in E; destruct i; inversion E;
        reflexivity.
    + split.
      * intros ->. cbn [Z.eqb andb] in A.
        apply negb_false_iff, Z.eqb_eq in A. exact A.
      * intros [-> | ->]; cbn [Z.eqb Pos.eqb orb andb] in B;
          apply negb_false_iff, Z.eqb_eq in B; exact B.
Qed.

Lemma count_tok_plain s f l :
  f <> s -> count_tok s (f :: l) = count_tok s l.
Proof. intros N. unfold count_tok. apply count_occ_cons_neq. exact N. Qed.

Lemma count_tok_same s l : count_tok s (s :: l) = S (count_tok s l).
Proof. unfold count_tok. apply count_occ_cons_eq. reflexivity. Qed.

Lemma pending_strtok_next l :
  pending_tokens (fst (strtok_next l)) (snd (strtok_next l)) = l /\
  (fst (strtok_next l) = None -> snd (strtok_next l) = []).
Proof. destruct l; simpl; split; auto; discriminate. Qed.

Lemma set_tok_accounts s i p tok' p' c0 c1 c2 :
  0 <= id_rd_tok (Some s) ->
  set_tok (Some s) (id_rd_tok (Some s)) i p = SetOk tok' p' ->
  redir_accounts c0 c1 c2 (s :: saved p) (redir p) ->
  redir_accounts c0 c1 c2 (pending_tokens tok' (saved p')) (redir p') /\
  (tok' = None -> saved p' = []).
Proof.
  intros M E (L & W & A0 & A1 & A2).
  pose proof (id_rd_tok_range (Some s)) as R.
  destruct (set_tok_ok_inv _ _ _ _ _ _ E) as (f & rest & Sv & Pf & T & Sp).
  destruct (set_tok_ok_redir _ _ _ _ _ _ E ltac:(lia)) as (v & V & Rd & Z0 & Z12).
  pose proof (set_tok_redir_wf (Some s) (id_rd_tok (Some s)) i p ltac:(lia) W)
    as W'.
  rewrite E in W'. cbn [set_state] in W'.
  destruct (pending_strtok_next rest) as [P N].
  rewrite T, Sp, P. split; [|exact N].
  assert (Nf : f <> "<" /\ f <> ">" /\ f <> ">>").
  { destruct (id_rd_tok_cases (Some f))
      as [[_ X]|[[_ X]|[[_ X]|(X0 & X1 & X2 & _)]]]; try lia.
    repeat split; congruence. }
  destruct Nf as (N0 & N1 & N2).
  rewrite Sv in A0, A1, A2.
  unfold redir_accounts. rewrite Rd, aset_length.
  split; [exact L|]. rewrite <- Rd. split; [exact W'|]. rewrite Rd.
  destruct W as (W1 & W2 & _).
  destruct (id_rd_tok_cases (Some s))
    as [[X Y]|[[X Y]|[[X Y]|(_ & _ & _ & Y)]]]; try lia;
    inversion X; subst s; rewrite Y in *; clear X.
  - change (Z.to_nat 0) with 0%nat.
    rewrite count_tok_same, count_tok_plain in A0 by congruence.
    rewrite !count_tok_plain in A1, A2 by congruence.
    unfold slot_taken in *.
    rewrite iget_aset_eq by lia. rewrite !iget_aset_other by lia.
    rewrite (Z0 eq_refl) in A0. simpl in A0.
    destruct (Z.eqb_spec v 0); [lia|]. repeat split; try assumption. lia.
  - change (Z.to_nat 1) with 1%nat.
    rewrite count_tok_same, count_tok_plain in A1 by congruence.
    rewrite !count_tok_plain in A0, A2 by congruence.
    unfold slot_taken in *.
    rewrite iget_aset_eq by lia. rewrite !iget_aset_other by lia.
    assert (Q : iget (redir p) 1 = 0) by (pose proof (Z12 (or_introl eq_refl)); lia).
    rewrite Q in A1. simpl in A1.
    destruct (Z.eqb_spec v 0); [lia|]. repeat split; try assumption. lia.
  - change (Z.to_nat 2) with 2%nat.
    rewrite count_tok_same, count_tok_plain in A2 by congruence.
    rewrite !count_tok_plain in A0, A1 by congruence.
    unfold slot_taken in *.
    rewrite iget_aset_eq by lia. rewrite !iget_aset_other by lia.
    assert (Q : iget (redir p) 2 = 0) by (pose proof (Z12 (or_intror eq_refl)); lia).
    rewrite Q in A2. simpl in A2.
    destruct (Z.eqb_spec v 0); [lia|]. repeat split; try assumption. lia.
Qed.

Lemma handle_redir_accounts tok p i c0 c1 c2 :
  (tok = None -> saved p = []) ->
  redir_accounts c0 c1 c2 (pending_tokens tok (saved p)) (redir p) ->
  match handle_redir tok p i with
  | RedirErr _ => True
  | RedirTok tok' p' =>
      id_rd_tok tok' = -1 /\ (tok' = None -> saved p' = []) /\
      redir_accounts c0 c1 c2 (pending_tokens tok' (saved p')) (redir p')
  end.
Proof.
  funelim (handle_redir tok p i); intros Hn Ha.
  - pose proof (id_rd_tok_range tok) as R.
    match goal with
    | E : (0 <=? id_rd_tok tok) = false |- _ =>
        pose proof (proj1 (Z.leb_gt _ _) E) as G
    end.
    split; [lia|]. split; assumption.
  - exact I.
  - match goal with
    | E : (0 <=? id_rd_tok tok) = true |- _ =>
        pose proof (proj1 (Z.leb_le _ _) E) as G
    end.
    destruct tok as [s|]; [|unfold id_rd_tok in G; lia].
    match goal with
    | E : set_tok _ _ i p = SetOk _ _ |- _ =>
        destruct (set_tok_accounts s i p _ _ c0 c1 c2 G E Ha) as [A N]
    end.
    apply H; assumption.
Qed.

Lemma accounts_plain t l rd c0 c1 c2 :
  id_rd_tok (Some t) = -1 ->
  redir_accounts c0 c1 c2 (t :: l) rd -> redir_accounts c0 c1 c2 l rd.
Proof.
  intros P (L & W & A0 & A1 & A2).
  destruct (id_rd_tok_cases (Some t))
    as [[_ X]|[[_ X]|[[_ X]|(X0 & X1 & X2 & _)]]]; try lia.
  rewrite count_tok_plain in A0, A1, A2 by congruence.
  repeat split; try assumption; apply W.
Qed.

Lemma parse_loop_accounts n : forall i p c0 c1 c2,
  redir_accounts c0 c1 c2 (saved p) (redir p) ->
  let r := fst (parse_loop n i p) in
  0 <= r < Z.of_nat (i + n) - 1 ->
  redir_accounts c0 c1 c2 [] (redir (snd (parse_loop n i p))).
Proof.
  induction n as [|n IH]; intros i p c0 c1 c2 A; simpl parse_loop; cbv zeta.
  - rewrite parse_finish_value. cbn [fst]. lia.
  - destruct (pending_strtok_next (saved p)) as [P N].
    destruct (strtok_next (saved p)) as [t sv]. cbn [fst snd] in P, N.
    pose proof (handle_redir_accounts t (set_saved sv p) i c0 c1 c2) as H.
    cbn [saved set_saved redir] in H. rewrite P in H.
    specialize (H N A).
    destruct (handle_redir t (set_saved sv p) i) as [p'|tok p'];
      cbn [fst snd]; [lia|].
    destruct H as (Pl & N' & A').
    destruct tok as [c|].
    + intros R. apply IH.
      * cbn [saved set_argv set_token redir].
        exact (accounts_plain _ _ _ _ _ _ Pl A').
      * cbv zeta. lia.
    + rewrite parse_finish_value. cbn [fst snd]. intros _.
      cbn [redir set_argv set_token].
      cbn [pending_tokens] in A'. rewrite (N' eq_refl) in A'. exact A'.
Qed.

Lemma parse_accounts buffer tokens argv redir :
  (3 <= List.length redir)%nat ->
  iget redir 0 = 0 -> iget redir 1 = 0 -> iget redir 2 = 0 ->
  let r := fst (parse buffer tokens argv redir) in
  let rd := Parsing.redir (snd (parse buffer tokens argv redir)) in
  0 <= r < 511 ->
  count_tok "<" (tokenize buffer) = slot_taken rd 0 /\
  count_tok ">" (tokenize buffer) = slot_taken rd 1 /\
  count_tok ">>" (tokenize buffer) = slot_taken rd 2 /\
  (count_tok "<" (tokenize buffer) <= 1)%nat /\
  (count_tok ">" (tokenize buffer) + count_tok ">>" (tokenize buffer) <= 1)%nat.
Proof.
  intros L Z0 Z1 Z2. unfold parse.
  assert (A : redir_accounts (count_tok "<" (tokenize buffer))
                (count_tok ">" (tokenize buffer))
                (count_tok ">>" (tokenize buffer)) (tokenize buffer) redir).
  { unfold redir_accounts, redir_wf, slot_taken. rewrite Z0, Z1, Z2.
    cbn [Z.eqb]. repeat split; try lia. }
  destruct (pending_strtok_next (tokenize buffer)) as [P N].
  destruct (strtok_next (tokenize buffer)) as [first sv].
  cbn [fst snd] in P, N.
  pose proof (handle_redir_accounts first (mkP sv tokens argv 0 redir []) 0
                (count_tok "<" (tokenize buffer))
                (count_tok ">" (tokenize buffer))
                (count_tok ">>" (tokenize buffer)) N) as H.
  cbn [saved Parsing.redir] in H. rewrite P in H. specialize (H A).
  destruct (handle_redir first _ 0) as [p'|[t|] p']; cbv zeta; cbn [fst snd];
    try lia.
  destruct H as (Pl & N' & A').
  cbn [pending_tokens] in A'. apply accounts_plain in A'; [|exact Pl].
  match goal with
  | |- context [parse_loop 511 1 ?q] =>
      pose proof (parse_loop_accounts 511 1 q
                    (count_tok "<" (tokenize buffer))
                    (count_tok ">" (tokenize buffer))
                    (count_tok ">>" (tokenize buffer))) as G;
      assert (Q : saved q = saved p' /\ Parsing.redir q = Parsing.redir p')
        by (destruct t as [|c t]; [|destruct (Ascii.eqb c slash)];
            split; reflexivity)
  end.
  destruct Q as [Q1 Q2]. rewrite Q1, Q2 in G. specialize (G A').
  cbv zeta in G. intros R.
  destruct G as (_ & (_ & _ & W) & G0 & G1 & G2); [lia|].
  cbn [count_tok count_occ Nat.add] in G0, G1, G2. rewrite G0, G1, G2.
  repeat split; unfold slot_taken;
    repeat match goal with
           | |- context [?x =? 0] => destruct (Z.eqb_spec x 0)
           end; lia.
Qed.

(** X25: when [parse] succeeds with fewer than 511 arguments on a [redir]
    whose first three slots are 0, each slot is non-zero afterwards
    exactly when its symbol occurs in the line; "<" occurs at most once,
    and so do ">" and ">>" taken together. *)
Theorem parse_redirections_once buffer tokens argv redir :
  (3 <= List.length redir)%nat ->
  iget redir 0 = 0 -> iget redir 1 = 0 -> iget redir 2 = 0 ->
  let r := fst (parse buffer tokens argv redir) in
  let rd := Parsing.redir (snd (parse buffer tokens argv redir)) in
  0 <= r < 511 ->
  count_tok "<" (tokenize buffer) = slot_taken rd 0 /\
  count_tok ">" (tokenize buffer) = slot_taken rd 1 /\
  count_tok ">>" (tokenize buffer) = slot_taken rd 2 /\
  (count_tok "<" (tokenize buffer) <= 1)%nat /\
  (count_tok ">" (tokenize buffer) + count_tok ">>" (tokenize buffer) <= 1)%nat.
Proof. exact (parse_accounts buffer tokens argv redir). Qed.

End ParseRedirs.

Lemma parse_redirections_once_witness :
  let r := fst (Parsing.parse "cat < in >> out" zeroed zeroed [0;0;0;0]) in
  let rd := Parsing.redir
              (snd (Parsing.parse "cat < in >> out" zeroed zeroed [0;0;0;0])) in
  count_tok "<" (tokenize "cat < in >> out") = slot_taken rd 0 /\
  count_tok ">" (tokenize "cat < in >> out") = slot_taken rd 1 /\
  count_tok ">>" (tokenize "cat < in >> out") = slot_taken rd 2 /\
  (count_tok "<" (tokenize "cat < in >> out") <= 1)%nat /\
  (count_tok ">" (tokenize "cat < in >> out")
   + count_tok ">>" (tokenize "cat < in >> out") <= 1)%nat.
Proof.
  apply (parse_redirections_once "cat < in >> out" zeroed zeroed [0;0;0;0]).
  - simpl. lia.
  - reflexivity.
  - reflexivity.
  - reflexivity.
  - split; [apply Z.leb_le | apply Z.ltb_lt]; reflexivity.
Defined.

Example parse_two_outputs_rejected :
  let r := Parsing.parse "ls > a >> b" zeroed zeroed [0;0;0;0] in
  fst r = -1 /\
  Parsing.perr (snd r)
  = [SysWrite STDERR_FILENO
       (c_bytes ("syntax error: multiple output files" ++ nl) 36)].
Proof. split; reflexivity. Qed.

(** ** sh.c and lib_checks.c *)

(** X9: the index [run_prog] computes for the program's path is twice
    the number of the three redirection slots that hold 1; the clause
    [f_index == 1 && redir[i] == 3] never fires, so after two leading
    redirections the index is 2, not 4. *)
Theorem find_f_index_counts_leading redir :
  find_f_index redir =
  2 * (Z.b2z (iget redir 0 =? 1) + Z.b2z (iget redir 1 =? 1)
       + Z.b2z (iget redir 2 =? 1)).
Proof.
  unfold find_f_index, f_index_step. simpl.
  destruct (iget redir 0 =? 1), (iget redir 1 =? 1), (iget redir 2 =? 1);
    reflexivity.
Qed.

Lemma handle_signals_normal_exit k status pgid cmd w :
  WIFEXITED status = true ->
  handle_signals k status pgid cmd w = Return tt w.
Proof.
  intros X. destruct (exited_not_others status X) as (A & B & _).
  unfold handle_signals. run_shell. rewrite A, B. reflexivity.
Qed.

(** X10: when the foreground wait reports a stop (with a signal number)
    and the lookup in [handle_signals] finds nothing, the process group is
    added to the job list as STOPPED under [next_job], [next_job] is
    incremented, and the line that names the old [next_job] is written. *)
Theorem handle_signals_registers_stopped k status pgid cmd w :
  WIFSTOPPED status = true -> WSTOPSIG status <> 0 ->
  get_job_pid (my_jobs w) pgid < 0 ->
  let w1 := mkW (add_job (my_jobs w) (next_job w) pgid STOPPED cmd)
                (wrap_int (next_job w + 1)) (trace w) (pending w) in
  handle_signals k status pgid cmd w =
  after_write k w1 (my_jobs w1)
    (signal_line (next_job w) pgid "suspended by signal" (WSTOPSIG status)).
Proof.
  intros T N J w1. pose proof (stopped_not_signaled status T) as S.
  unfold handle_signals, incr_next_job. run_shell. rewrite S, T.
  rewrite (proj2 (Z.ltb_lt _ _) J). simpl.
  rewrite (proj2 (Z.eqb_neq _ _) N). simpl.
  rewrite checked_stdwrite_after. reflexivity.
Qed.

(** X11: when the foreground wait reports death by a signal,
    [handle_signals] writes the termination line and changes neither the
    job list nor [next_job]; for an unknown job the line shows [next_job]
    without taking it. *)
Theorem handle_signals_killed k status pgid cmd w :
  WIFSIGNALED status = true ->
  let job := get_job_pid (my_jobs w) pgid in
  handle_signals k status pgid cmd w =
  after_write k w (my_jobs w)
    (signal_line (if job <? 0 then next_job w else job) pgid
       "terminated by signal" (WTERMSIG status)).
Proof.
  intros S job. pose proof (signaled_termsig status S) as R.
  unfold handle_signals. run_shell. rewrite S. simpl.
  destruct (Z.eqb_spec (WTERMSIG status) 0) as [E|E]; [lia|]. simpl.
  rewrite checked_stdwrite_after. reflexivity.
Qed.

(** X12: for a continued status [reap] marks the entry RUNNING and writes
    "[<job>] (<pgid>) resumed". *)
Theorem reap_continued k status pgid w :
  WIFCONTINUED status = true ->
  reap k status pgid w =
  after_write k w (update_job_pid (my_jobs w) pgid RUNNING)
    (reap_line (get_job_jid (my_jobs w) pgid) pgid "resumed").
Proof.
  intros C. apply Z.eqb_eq in C. subst status.
  unfold reap. run_shell. rewrite checked_stdwrite_after. reflexivity.
Qed.




(** X16: [exec_builtins] answers -1, having done nothing, exactly for a
    command that is none of its seven names; for those it answers 0
    whenever it returns. *)
Theorem exec_builtins_recognizes k argv argc w cmd :
  aget argv 0 = Some cmd ->
  (~ In cmd builtin_names -> exec_builtins k argv argc w = Return (-1) w) /\
  (In cmd builtin_names ->
   forall r w', exec_builtins k argv argc w = Return r w' -> r = 0).
Proof.
  intros A. unfold exec_builtins. rewrite A. split.
  - intros N.
    repeat match goal with
           | |- context [strncmp_eq cmd ?b ?n] =>
               destruct (strncmp_eq cmd b n) eqn:?
           end;
      try reflexivity;
      match goal with
      | H : strncmp_eq cmd ?b ?n = true |- _ =>
          apply strncmp_eq_iff in H; [|simpl; lia]; subst cmd;
          exfalso; apply N; simpl; tauto
      end.
  - intros I r w' E. simpl in I.
    repeat (destruct I as [I|I]; [subst cmd|]); [..|contradiction];
      simpl in E;
      match type of E with
      | ?m w = _ => assert (Z : returns_zero m) by returns_zero_go
      end;
      exact (Z _ _ _ E).
Qed.



Lemma never_returns_bind {A B} (m : M A) (f : A -> M B) :
  (forall a, never_returns (f a)) -> never_returns (bind m f).
Proof.
  intros H w. unfold bind.
  destruct (m w) as [a w1| | |]; try reflexivity. apply H.
Qed.

Lemma never_returns_if {A} (b : bool) (x y : M A) :
  never_returns x -> never_returns y -> never_returns (if b then x else y).
Proof. destruct b; auto. Qed.

Lemma never_returns_run_child k argv tokens redir bg f_index :
  never_returns (run_child k argv tokens redir bg f_index).
Proof.
  unfold run_child.
  repeat (apply never_returns_bind; intros).
  destruct (aget argv 0); [|intros w; reflexivity].
  cbv zeta. apply never_returns_bind. intros r.
  apply never_returns_if.
  - apply never_returns_bind. intros. intros w. reflexivity.
  - intros w. reflexivity.
Qed.



Lemma get_job_jid_add l j p s c :
  ~ In p (map pid l) -> get_job_jid (add_job l j p s c) p = j.
Proof.
  unfold add_job. induction l as [|x r IH]; simpl; intros H.
  - rewrite Z.eqb_refl. reflexivity.
  - destruct (Z.eqb_spec (pid x) p) as [E|E]; [tauto|]. apply IH. tauto.
Qed.

(** X17: a background launch in the parent never waits: after [fork]
    the launch line is written and no [waitpid] follows; when [run_prog]
    returns, the child is in the job list as RUNNING under the old
    [next_job], which has been incremented, and for a pid the list did
    not hold the line shows that job id. *)
Theorem run_prog_background k argv tokens redir w :
  iget redir 3 <> 0 ->
  sys_ret k (List.length (trace w)) <> 0 ->
  let p := sys_ret k (List.length (trace w)) in
  let l' := add_job (my_jobs w) (next_job w) p RUNNING
                    (aget tokens (Z.to_nat (find_f_index redir))) in
  (exists t,
     trace (final (run_prog k argv tokens redir w)) =
     (trace w ++ SysFork
        :: SysWrite STDOUT_FILENO
             (strnlen_prefix (launch_line (get_job_jid l' p) p) 1024) :: t)%list
     /\ existsb is_waitpid t = false) /\
  (~ In p (map pid (my_jobs w)) -> get_job_jid l' p = next_job w) /\
  (forall r w', run_prog k argv tokens redir w = Return r w' ->
     my_jobs w' = l' /\ next_job w' = wrap_int (next_job w + 1)).
Proof.
  intros B F p l'. split; [|split].
  - unfold run_prog. cbv zeta. unfold bind at 1. unfold sys at 1.
    rewrite (proj2 (Z.eqb_neq _ _) F). rewrite (proj2 (Z.eqb_neq _ _) B).
    cbn [negb].
    unfold checked_stdwrite, checked_setpgrp, incr_next_job, die. run_shell.
    repeat match goal with
           | |- context [if ?b then _ else _] => destruct b eqn:?; simpl
           end;
      rewrite <- ?app_assoc; simpl; eexists; split; reflexivity.
  - intros N. apply get_job_jid_add. exact N.
  - intros r w'. unfold run_prog. cbv zeta. unfold bind at 1. unfold sys at 1.
    rewrite (proj2 (Z.eqb_neq _ _) F). rewrite (proj2 (Z.eqb_neq _ _) B).
    cbn [negb].
    unfold checked_stdwrite, checked_setpgrp, incr_next_job, die. run_shell.
    repeat match goal with
           | |- context [if ?b then _ else _] => destruct b eqn:?; simpl
           end; intros E; inversion E; subst; clear E. split; reflexivity.
Qed.

(** X20: a foreground program that exited normally leaves no trace in
    the shell: when [run_prog] returns, job list and [next_job] are as
    before and the calls made are [fork], the wait, [getpgrp] and
    [tcsetpgrp]; nothing is written. *)
Theorem run_prog_foreground_exit k argv tokens redir w r w' :
  iget redir 3 = 0 ->
  sys_ret k (List.length (trace w)) <> 0 ->
  WIFEXITED (sys_status k (S (List.length (trace w)))) = true ->
  run_prog k argv tokens redir w = Return r w' ->
  let p := sys_ret k (List.length (trace w)) in
  w' = mkW (my_jobs w) (next_job w)
           (trace w ++ [SysFork; SysWaitpid p WUNTRACED; SysGetpgrp;
                        SysTcsetpgrp STDIN_FILENO
                          (sys_ret k (S (S (List.length (trace w)))))])
           (pending w).
Proof.
  intros B F X. unfold run_prog. cbv zeta. unfold bind at 1. unfold sys at 1.
  rewrite (proj2 (Z.eqb_neq _ _) F). rewrite B. cbn [negb Z.eqb].
  unfold checked_waitpid, sys_waitpid.
  unfold bind at 1. unfold bind at 1. unfold bind at 1. cbn [trace].
  rewrite !length_app. cbn [List.length]. rewrite !Nat.add_1_r.
  destruct (fst _ <? 0) eqn:W.
  { unfold die. run_shell. discriminate. }
  unfold ret at 1. cbn [snd]. rewrite handle_signals_normal_exit by exact X.
  unfold checked_setpgrp, die. run_shell.
  rewrite !length_app. cbn [List.length]. rewrite !Nat.add_1_r.
  repeat match goal with
         | |- context [if ?b then _ else _] => destruct b eqn:?; simpl
         end; intros E; inversion E; subst; clear E.
  rewrite <- !app_assoc. reflexivity.
Qed.


Lemma run_child_trace k argv tokens redir bg f_index w w' :
  run_child k argv tokens redir bg f_index w = Exec w' ->
  let pid := sys_ret k (List.length (trace w)) in
  exists a0,
    aget argv 0 = Some a0 /\
    trace w' =
    (trace w ++ [SysGetpid; SysSetpgid pid pid]
       ++ (if bg =? 0 then [SysTcsetpgrp STDIN_FILENO pid] else [])
       ++ [SysSignal SIGINT SIG_DFL; SysSignal SIGTSTP SIG_DFL;
           SysSignal SIGTTOU SIG_DFL]
       ++ redirection_calls tokens redir
       ++ [SysExecv (aget tokens (Z.to_nat f_index))
             (c_vector (if strncmp_eq a0 "/" 1
                        then aset argv 0 (Some (str_tail a0)) else argv))])%list
    /\ my_jobs w' = my_jobs w /\ next_job w' = next_job w.
Proof.
  unfold run_child, redirection_calls, change_def_handlers, checked_signal,
    checked_setpgrp, checked_close, checked_open, perror, die.
  run_shell.
  repeat match goal with
         | |- context [if ?b then _ else _] => destruct b eqn:?; simpl
         end;
    try discriminate;
    destruct (aget argv 0) as [a0|]; simpl; try discriminate;
    repeat match goal with
           | |- context [if ?b then _ else _] => destruct b eqn:?; simpl
           end;
    try discriminate;
    intros E; inversion E; subst; clear E;
    exists a0; (split; [reflexivity|]); simpl;
    match goal with H : strncmp_eq a0 _ _ = _ |- _ => rewrite H end;
    rewrite <- ?app_assoc; simpl; repeat split; reflexivity.
Qed.

(** X19: when the child reaches [execv] successfully it has, in this
    order, asked for its pid, made itself a process group leader, taken
    the terminal if and only if the job is in the foreground, reset the
    three signals to SIG_DFL, and made the redirections; [argv[0]] has
    lost a leading '/'. *)
Theorem run_child_setup_order k argv tokens redir bg f_index w w' :
  run_child k argv tokens redir bg f_index w = Exec w' ->
  let pid := sys_ret k (List.length (trace w)) in
  exists a0,
    aget argv 0 = Some a0 /\
    trace w' =
    (trace w ++ [SysGetpid; SysSetpgid pid pid]
       ++ (if bg =? 0 then [SysTcsetpgrp STDIN_FILENO pid] else [])
       ++ [SysSignal SIGINT SIG_DFL; SysSignal SIGTSTP SIG_DFL;
           SysSignal SIGTTOU SIG_DFL]
       ++ redirection_calls tokens redir
       ++ [SysExecv (aget tokens (Z.to_nat f_index))
             (c_vector (if strncmp_eq a0 "/" 1
                        then aset argv 0 (Some (str_tail a0)) else argv))])%list
    /\ my_jobs w' = my_jobs w /\ next_job w' = next_job w.
Proof. exact (run_child_trace k argv tokens redir bg f_index w w'). Qed.

Lemma c_vector_prefix xs : forall l m,
  firstn m l = (map Some xs ++ [None])%list -> c_vector l = map Some xs.
Proof.
  induction xs as [|x xs IH]; intros l m H; simpl in H.
  - destruct m; [discriminate|]. destruct l as [|[y|] l]; try discriminate.
    reflexivity.
  - destruct m; [discriminate|]. destruct l as [|y l]; [discriminate|].
    simpl in H. inversion H; subst. simpl. f_equal. exact (IH l m H2).
Qed.

(** X24: [parse] followed by the child side of [run_prog], on a line
    without redirection symbols: the one [execv] the child makes is its
    last call, its path is the first token of the line as typed, and its
    argument vector is the tokens of the line, the first one cut down to
    what follows its last '/' when it starts with '/'. *)
Theorem plain_command_exec k buffer c ts bg w w' :
  tokenize buffer = c :: ts ->
  Forall not_redir_symbol (c :: ts) ->
  (List.length ts < 511)%nat ->
  let p := snd (Parsing.parse buffer zeroed zeroed [0;0;0;0]) in
  run_child k (Parsing.argv p) (Parsing.tokens p) (Parsing.redir p) bg
            (find_f_index (Parsing.redir p)) w = Exec w' ->
  exists t name,
    trace w' = (t ++ [SysExecv (Some c) (Some name :: map Some ts)])%list /\
    (starts_with_slash c = false -> name = c) /\
    (starts_with_slash c = true ->
     exists dir, c = dir ++ String slash name /\
                 ~ In slash (list_ascii_of_string name)).
Proof.
  intros T F L p E.
  destruct (parse_plain buffer zeroed zeroed [0;0;0;0] c ts T F L
              eq_refl eq_refl) as (_ & Tk & (a0 & Av & P1 & P2) & Rd & _).
  fold p in Tk, Av, Rd.
  destruct (run_child_trace _ _ _ _ _ _ _ _ E) as (a & A0 & Tr & _).
  rewrite Rd in Tr. change (find_f_index [0;0;0;0]) with 0 in Tr.
  assert (T0 : aget (Parsing.tokens p) (Z.to_nat 0) = Some c).
  { replace (List.length ts + 2)%nat with (S (List.length ts + 1)) in Tk by lia.
    destruct (Parsing.tokens p) as [|x l]; [discriminate Tk|].
    simpl in Tk. inversion Tk. reflexivity. }
  rewrite T0 in Tr.
  replace (List.length ts + 2)%nat with (S (List.length ts + 1)) in Av by lia.
  destruct (Parsing.argv p) as [|x av] eqn:AV; [discriminate Av|].
  simpl in Av. inversion Av as [[X Rest]]. subst x.
  unfold aget in A0. simpl in A0. inversion A0; subst a. clear A0.
  destruct (starts_with_slash c) eqn:S.
  - destruct (P2 eq_refl) as (dir & base & Cc & Aa & NS). subst a0.
    assert (Y : strncmp_eq (String slash base) "/" 1 = true)
      by (simpl; destruct base; reflexivity).
    rewrite Y in Tr. simpl in Tr.
    rewrite (c_vector_prefix ts av _ Rest) in Tr.
    exists (trace w ++ [SysGetpid; SysSetpgid (sys_ret k (List.length (trace w)))
                                     (sys_ret k (List.length (trace w)))]
              ++ (if bg =? 0
                  then [SysTcsetpgrp STDIN_FILENO
                          (sys_ret k (List.length (trace w)))]
                  else [])
              ++ [SysSignal SIGINT SIG_DFL; SysSignal SIGTSTP SIG_DFL;
                  SysSignal SIGTTOU SIG_DFL])%list.
    exists base. split; [|split].
    + rewrite Tr. destruct (bg =? 0); simpl; rewrite <- !app_assoc;
        reflexivity.
    + discriminate.
    + intros _. exists dir. auto.
  - rewrite (P1 eq_refl) in *.
    assert (N : strncmp_eq c "/" 1 = false).
    { destruct c as [|ch c']; [reflexivity|]. simpl in S. simpl.
      unfold slash in S. rewrite S. reflexivity. }
    simpl in Tr.
    rewrite N in Tr. simpl in Tr.
    rewrite (c_vector_prefix ts av _ Rest) in Tr.
    exists (trace w ++ [SysGetpid; SysSetpgid (sys_ret k (List.length (trace w)))
                                     (sys_ret k (List.length (trace w)))]
              ++ (if bg =? 0
                  then [SysTcsetpgrp STDIN_FILENO
                          (sys_ret k (List.length (trace w)))]
                  else [])
              ++ [SysSignal SIGINT SIG_DFL; SysSignal SIGTSTP SIG_DFL;
                  SysSignal SIGTTOU SIG_DFL])%list.
    exists c. split; [|split].
    + rewrite Tr. destruct (bg =? 0); simpl; rewrite <- !app_assoc;
        reflexivity.
    + reflexivity.
    + discriminate.
Qed.

Lemma exits_clean_bind {A B} (m : M A) (f : A -> M B) :
  exits_clean m -> (forall a, exits_clean (f a)) -> exits_clean (bind m f).
Proof.
  intros Hm Hf w. unfold bind. specialize (Hm w).
  destruct (m w) as [a w1|c1 w1|w1|w1]; try exact I.
  - apply Hf.
  - exact Hm.
Qed.

Lemma exits_clean_cleanup_exit {A} c :
  exits_clean (set_jobs cleanup_job_list ;;; @exit_ A c).
Proof. intros w. reflexivity. Qed.

Lemma exits_clean_if {A} (b : bool) (x y : M A) :
  exits_clean x -> exits_clean y -> exits_clean (if b then x else y).
Proof. destruct b; auto. Qed.

Lemma exits_clean_ret {A} (a : A) : exits_clean (ret a).
Proof. intros w. exact I. Qed.

Lemma exits_clean_fault {A} : exits_clean (@fault A).
Proof. intros w. exact I. Qed.

Lemma exits_clean_get_world : exits_clean get_world.
Proof. intros w. exact I. Qed.

Lemma exits_clean_set_jobs f : exits_clean (set_jobs f).
Proof. intros w. exact I. Qed.

Lemma exits_clean_incr_next_job : exits_clean incr_next_job.
Proof. intros w. exact I. Qed.

Lemma exits_clean_sys k c : exits_clean (sys k c).
Proof. intros w. exact I. Qed.

Lemma exits_clean_sys_waitpid k p o : exits_clean (sys_waitpid k p o).
Proof. intros w. exact I. Qed.

Lemma exits_clean_sys_waitpid_nohang k : exits_clean (sys_waitpid_nohang k).
Proof.
  intros w. unfold sys_waitpid_nohang. destruct (pending w); exact I.
Qed.

Ltac exits_base :=
  first [ assumption
        | apply exits_clean_ret | apply exits_clean_fault
        | apply exits_clean_get_world | apply exits_clean_set_jobs
        | apply exits_clean_incr_next_job | apply exits_clean_sys
        | apply exits_clean_sys_waitpid | apply exits_clean_sys_waitpid_nohang ].

Ltac exits_go known :=
  intros; cbv beta zeta;
  lazymatch goal with
  | |- exits_clean (if _ then _ else _) => apply exits_clean_if; exits_go known
  | |- exits_clean (match ?x with Some _ => _ | None => _ end) =>
      destruct x; exits_go known
  | |- exits_clean (let '(_, _) := ?x in _) => destruct x; exits_go known
  | |- exits_clean (bind (set_jobs cleanup_job_list) (fun _ => exit_ _)) =>
      apply exits_clean_cleanup_exit
  | |- exits_clean (bind _ _) =>
      first [ solve [known] | apply exits_clean_bind; exits_go known ]
  | |- _ => first [ exits_base | solve [known] ]
  end.

Lemma exits_clean_die {A} k what : exits_clean (@die k A what).
Proof. unfold die. exits_go idtac. Qed.

Lemma exits_clean_checked_stdwrite k s : exits_clean (checked_stdwrite k s).
Proof. unfold checked_stdwrite. exits_go ltac:(apply exits_clean_die). Qed.

Lemma exits_clean_checked_setpgrp k p : exits_clean (checked_setpgrp k p).
Proof. unfold checked_setpgrp. exits_go ltac:(apply exits_clean_die). Qed.

Lemma exits_clean_checked_waitpid k p o : exits_clean (checked_waitpid k p o).
Proof. unfold checked_waitpid. exits_go ltac:(apply exits_clean_die). Qed.

Lemma exits_clean_write_stderr k s n : exits_clean (write_stderr k s n).
Proof. unfold write_stderr. exits_go idtac. Qed.

Lemma exits_clean_perror k s : exits_clean (perror k s).
Proof. unfold perror. exits_go idtac. Qed.

Ltac exits_lib :=
  first [ apply exits_clean_die | apply exits_clean_checked_stdwrite
        | apply exits_clean_checked_setpgrp | apply exits_clean_checked_waitpid
        | apply exits_clean_write_stderr | apply exits_clean_perror ].

Lemma exits_clean_reap k status pgid : exits_clean (reap k status pgid).
Proof. unfold reap. exits_go exits_lib. Qed.

Lemma exits_clean_handle_signals k status pgid cmd :
  exits_clean (handle_signals k status pgid cmd).
Proof. unfold handle_signals. exits_go exits_lib. Qed.

Lemma exits_clean_jobs_listing k cs :
  exits_clean (fold_right (fun c m => sys k c ;;; m) (ret tt) cs).
Proof.
  induction cs as [|c cs IH]; simpl.
  - apply exits_clean_ret.
  - apply exits_clean_bind; [apply exits_clean_sys | intros _; exact IH].
Qed.

Lemma exits_clean_with_job k name argv argc found :
  (forall p, exits_clean (found p)) ->
  exits_clean (with_job k name argv argc found).
Proof.
  intros H. unfold with_job. exits_go ltac:(first [exits_lib | apply H]).
Qed.

Ltac exits_sh :=
  first [ exits_lib
        | apply exits_clean_reap
        | apply exits_clean_handle_signals
        | apply exits_clean_jobs_listing
        | apply exits_clean_with_job; intros; exits_go exits_sh ].

Lemma exits_clean_exec_builtins k argv argc :
  exits_clean (exec_builtins k argv argc).
Proof. unfold exec_builtins. exits_go exits_sh. Qed.

Lemma exits_clean_drain_loop k q : exits_clean (drain_loop k q).
Proof.
  induction q as [|ps q IH]; simpl;
    exits_go ltac:(first [exits_sh | exact IH]).
Qed.

(** X21: every [exit] the shell itself takes inside [exec_builtins], the
    polling loop or the parent side of [run_prog] happens with the job
    list cleaned up. *)
Theorem shell_exits_clean k :
  (forall argv argc w, clean_exit (exec_builtins k argv argc w)) /\
  (forall w, clean_exit (drain k w)) /\
  (forall argv tokens redir w,
     sys_ret k (List.length (trace w)) <> 0 ->
     clean_exit (run_prog k argv tokens redir w)).
Proof.
  split; [|split].
  - intros argv argc. apply exits_clean_exec_builtins.
  - intros w. unfold drain. apply exits_clean_drain_loop.
  - intros argv tokens redir w F.
    unfold run_prog. cbv zeta. unfold bind at 1. unfold sys at 1.
    rewrite (proj2 (Z.eqb_neq _ _) F).
    match goal with
    | |- clean_exit (?m ?w0) => assert (Q : exits_clean m) by exits_go exits_sh
    end.
    apply Q.
Qed.

(** X22: the polling loop registers nothing: [next_job] is unchanged and
    every job in the list afterwards was in it before under the same id
    and process group; and when it returns from a queue of notifications
    with positive pids, the queue is empty. *)
Theorem drain_never_registers k w :
  next_job (final (drain k w)) = next_job w /\
  (forall j, In j (my_jobs (final (drain k w))) ->
     exists j0, In j0 (my_jobs w) /\ jid j0 = jid j /\ pid j0 = pid j) /\
  (Forall (fun ps => 0 < fst ps) (pending w) ->
   forall w1, drain k w = Return tt w1 -> pending w1 = []).
Proof.
  destruct (sat_drain k w) as [N S]. split; [exact N|]. split.
  - apply shrinks_In. exact S.
  - intros F w1 E. unfold drain in E.
    exact (drain_loop_consumes_all k (pending w) w w1 eq_refl F E).
Qed.





































Lemma zeroed_length : List.length zeroed = 512%nat.
Proof. apply repeat_length. Qed.



Lemma run_child_never_returns k argv tokens redir bg f_index w :
  is_return (run_child k argv tokens redir bg f_index w) = false.
Proof. apply never_returns_run_child. Qed.

Section LeadingRedirs.
Import Parsing.

Local Arguments iget : simpl never.
Local Arguments aset : simpl never.
Local Arguments id_rd_tok : simpl never.
Local Arguments andb : simpl never.
Local Arguments orb : simpl never.
Local Arguments negb : simpl never.

Lemma handle_redir_symbol tok p i :
  0 <= id_rd_tok tok ->
  handle_redir tok p i =
  match set_tok tok (id_rd_tok tok) i p with
  | SetErr p' => RedirErr p'
  | SetOk tok' p' => handle_redir tok' p' i
  end.
Proof.
  funelim (handle_redir tok p i); intros G.
  - match goal with
    | E : (0 <=? id_rd_tok tok) = false |- _ =>
        pose proof (proj1 (Z.leb_gt _ _) E); lia
    end.
  - match goal with
    | E : set_tok _ _ _ _ = _ |- _ => rewrite E
    end. reflexivity.
  - match goal with
    | E : set_tok _ _ _ _ = _ |- _ => rewrite E
    end. reflexivity.
Qed.

Lemma set_tok_ok_step tok mode i sv tk av off rd pe f rest :
  sv = f :: rest ->
  id_rd_tok (Some f) = -1 ->
  (mode =? 0) && negb (iget rd 0 =? 0) = false ->
  ((mode =? 1) || (mode =? 2)) && negb (iget rd 1 + iget rd 2 =? 0) = false ->
  (rest <> [] \/ i <> 0%nat) ->
  set_tok tok mode i (mkP sv tk av off rd pe) =
  SetOk (fst (strtok_next rest))
        (mkP (snd (strtok_next rest))
             (aset (aset tk (i + off) tok) (i + S off) (Some f)) av
             (S (S off))
             (aset rd (Z.to_nat mode) (Z.of_nat (i + S off))) pe).
Proof.
  intros -> F A B N. unfold set_tok. simpl. rewrite F, A, B. simpl.
  destruct rest as [|t rest]; simpl.
  - destruct i; [destruct N; congruence | reflexivity].
  - reflexivity.
Qed.

Lemma aget_aset_seq_below vs : forall l i j,
  (j < i)%nat -> aget (aset_seq l i vs) j = aget l j.
Proof.
  induction vs as [|v r IH]; intros l i j L; simpl; [reflexivity|].
  rewrite IH by lia. apply aget_aset_other. lia.
Qed.

Lemma parse_two_leading buffer tokens argv s1 f1 s2 f2 c ts :
  tokenize buffer = s1 :: f1 :: s2 :: f2 :: c :: ts ->
  (s1 = "<" /\ In s2 [">"; ">>"]) \/ (In s1 [">"; ">>"] /\ s2 = "<") ->
  Forall not_redir_symbol (f1 :: f2 :: c :: ts) ->
  (List.length ts < 507)%nat ->
  List.length tokens = 512%nat ->
  let p := snd (parse buffer tokens argv [0;0;0;0]) in
  fst (parse buffer tokens argv [0;0;0;0]) = Z.of_nat (S (List.length ts)) /\
  aget (Parsing.tokens p) 4 = Some c /\
  find_f_index (Parsing.redir p) = 2 /\
  aget (Parsing.tokens p) 2 = Some s2.
Proof.
  intros T S F L Lt.
  inversion F as [|? ? F1 F']; subst. inversion F' as [|? ? F2 F'']; subst.
  inversion F'' as [|? ? Fc Fts]; subst.
  apply plain_token in F1, F2. pose proof (plain_token _ Fc) as Pc.
  unfold parse. rewrite T. cbn [strtok_next].
  assert (X : exists m1 m2 : Z,
             id_rd_tok (Some s1) = m1 /\ id_rd_tok (Some s2) = m2 /\
             ((m1 = 0 /\ (m2 = 1 \/ m2 = 2)) \/ ((m1 = 1 \/ m1 = 2) /\ m2 = 0))).
  { destruct S as [[-> [<-|[<-|[]]]]|[[<-|[<-|[]]] ->]];
      do 2 eexists; (split; [reflexivity|]); (split; [reflexivity|]);
      unfold id_rd_tok; simpl; lia. }
  destruct X as (m1 & m2 & M1 & M2 & Cases).
  rewrite handle_redir_symbol by lia. rewrite M1.
  rewrite (set_tok_ok_step _ _ _ _ _ _ _ _ _ f1 (s2 :: f2 :: c :: ts) eq_refl F1).
  2:{ destruct Cases as [[-> _]|[[-> | ->] _]]; reflexivity. }
  2:{ destruct Cases as [[-> _]|[[-> | ->] _]]; reflexivity. }
  2:{ left. discriminate. }
  cbn [strtok_next fst snd].
  rewrite handle_redir_symbol by lia. rewrite M2.
  rewrite (set_tok_ok_step _ _ _ _ _ _ _ _ _ f2 (c :: ts) eq_refl F2).
  2:{ destruct Cases as [[-> [-> | ->]]|[[-> | ->] ->]]; reflexivity. }
  2:{ destruct Cases as [[-> [-> | ->]]|[[-> | ->] ->]]; reflexivity. }
  2:{ left. discriminate. }
  cbn [strtok_next fst snd].
  rewrite handle_redir_plain by exact Pc.
  cbn [offset].
  match goal with
  | |- context [parse_loop 511 1 ?q] =>
      assert (Q : exists a0 rd,
                q = mkP ts
                      (aset (aset (aset (aset (aset tokens 0 (Some s1)) 1
                                           (Some f1)) 2 (Some s2)) 3 (Some f2))
                         4 (Some c))
                      (aset argv 0 a0) 4 rd [] /\
                find_f_index rd = 2)
  end.
  { assert (R : find_f_index
                  (aset (aset [0; 0; 0; 0] (Z.to_nat m1) (Z.of_nat (0 + 1)))
                        (Z.to_nat m2) (Z.of_nat (0 + 3))) = 2)
      by (destruct Cases as [[-> [-> | ->]]|[[-> | ->] ->]]; reflexivity).
    destruct c as [|ch c']; [|destruct (Ascii.eqb ch slash) eqn:E].
    - eexists. eexists. split; [|exact R]. reflexivity.
    - eexists. eexists. split; [|exact R].
      unfold set_argv, set_token.
      cbn [saved Parsing.tokens Parsing.argv offset Parsing.redir perr].
      destruct argv; reflexivity.
    - eexists. eexists. split; [|exact R]. reflexivity. }
  destruct Q as (a0 & rd & Q & R). rewrite Q.
  rewrite (parse_loop_plain ts 511 1); [|exact Fts | lia | reflexivity].
  cbn [fst snd Parsing.tokens Parsing.argv Parsing.redir offset].
  split; [f_equal; lia|].
  rewrite !aget_aset_seq_below by lia.
  split; [|split; [exact R|]].
  - apply aget_aset_same. rewrite !aset_length. lia.
  - rewrite !(aget_aset_other _ _ 2) by lia.
    apply aget_aset_same. rewrite !aset_length. lia.
Qed.

End LeadingRedirs.

(** X26: a line that starts with two redirections, one of input and one
    of output in either order, followed by a command: [parse] accepts it
    and puts the command at [tokens[4]], but the index [run_prog]
    computes is 2, so the path the child hands to [execv] is the second
    redirection symbol. *)
Theorem two_leading_redirections buffer s1 f1 s2 f2 c ts :
  tokenize buffer = s1 :: f1 :: s2 :: f2 :: c :: ts ->
  (s1 = "<" /\ In s2 [">"; ">>"]) \/ (In s1 [">"; ">>"] /\ s2 = "<") ->
  Forall not_redir_symbol (f1 :: f2 :: c :: ts) ->
  (List.length ts < 507)%nat ->
  let p := snd (Parsing.parse buffer zeroed zeroed [0;0;0;0]) in
  fst (Parsing.parse buffer zeroed zeroed [0;0;0;0])
  = Z.of_nat (S (List.length ts)) /\
  aget (Parsing.tokens p) 4 = Some c /\
  forall k bg w w',
    run_child k (Parsing.argv p) (Parsing.tokens p) (Parsing.redir p) bg
      (find_f_index (Parsing.redir p)) w = Exec w' ->
    exists t av, trace w' = (t ++ [SysExecv (Some s2) av])%list.
Proof.
  intros T S F L.
  destruct (parse_two_leading buffer zeroed zeroed s1 f1 s2 f2 c ts T S F L
              zeroed_length) as (R & C4 & FI & T2).
  cbv zeta. split; [exact R|]. split; [exact C4|].
  intros k bg w w' E.
  destruct (run_child_trace _ _ _ _ _ _ _ _ E) as (a0 & _ & Tr & _).
  rewrite FI in Tr. change (Z.to_nat 2) with 2%nat in Tr. rewrite T2 in Tr.
  rewrite !app_assoc in Tr. eexists. eexists. exact Tr.
Qed.

(** *** Concrete runs *)

Lemma handle_signals_registers_stopped_witness :
  let w1 := mkW (add_job (my_jobs one_job_world) (next_job one_job_world)
                         555 STOPPED (Some "/bin/cat"))
                (wrap_int (next_job one_job_world + 1))
                (trace one_job_world) (pending one_job_world) in
  handle_signals quiet_kernel 5247 555 (Some "/bin/cat") one_job_world =
  after_write quiet_kernel w1 (my_jobs w1)
    (signal_line (next_job one_job_world) 555 "suspended by signal"
       (WSTOPSIG 5247)).
Proof.
  apply (handle_signals_registers_stopped quiet_kernel 5247 555
           (Some "/bin/cat") one_job_world).
  - reflexivity.
  - discriminate.
  - reflexivity.
Defined.

Example handle_signals_stop_run :
  handle_signals quiet_kernel 5247 555 (Some "/bin/cat") one_job_world =
  Return tt (mkW [mkJob 1 100 STOPPED (Some "/bin/sleep");
                  mkJob 2 555 STOPPED (Some "/bin/cat")] 3
               [SysWrite STDOUT_FILENO
                  ("[2] (555) suspended by signal 20" ++ nl)] []).
Proof. reflexivity. Qed.

Lemma handle_signals_killed_witness :
  let job := get_job_pid (my_jobs one_job_world) 555 in
  handle_signals quiet_kernel 2 555 None one_job_world =
  after_write quiet_kernel one_job_world (my_jobs one_job_world)
    (signal_line (if job <? 0 then next_job one_job_world else job) 555
       "terminated by signal" (WTERMSIG 2)).
Proof.
  apply (handle_signals_killed quiet_kernel 2 555 None one_job_world).
  reflexivity.
Defined.

Lemma reap_continued_witness :
  reap quiet_kernel 65535 100 one_job_world =
  after_write quiet_kernel one_job_world
    (update_job_pid (my_jobs one_job_world) 100 RUNNING)
    (reap_line (get_job_jid (my_jobs one_job_world) 100) 100 "resumed").
Proof.
  apply (reap_continued quiet_kernel 65535 100 one_job_world). reflexivity.
Defined.



Example bg_run :
  exec_builtins quiet_kernel [Some "bg"; Some "%1"; None] 2 one_job_world =
  Return 0 (mkW [mkJob 1 100 RUNNING (Some "/bin/sleep")] 2
              [SysKill 100 SIGCONT] []).
Proof. reflexivity. Qed.

Lemma exec_builtins_recognizes_witness :
  (~ In "/ls" builtin_names ->
   exec_builtins quiet_kernel [Some "/ls"; None] 1 one_job_world =
   Return (-1) one_job_world) /\
  (In "/ls" builtin_names ->
   forall r w',
     exec_builtins quiet_kernel [Some "/ls"; None] 1 one_job_world =
     Return r w' -> r = 0).
Proof.
  apply (exec_builtins_recognizes quiet_kernel [Some "/ls"; None] 1
           one_job_world "/ls").
  reflexivity.
Defined.



Lemma run_prog_background_witness :
  let p := sys_ret busy_kernel (List.length (trace initial_world)) in
  let l' := add_job (my_jobs initial_world) (next_job initial_world) p RUNNING
                    (aget sleep_tokens (Z.to_nat (find_f_index [0;0;0;1]))) in
  (exists t,
     trace (final (run_prog busy_kernel sleep_argv sleep_tokens [0;0;0;1]
                     initial_world)) =
     (trace initial_world ++ SysFork
        :: SysWrite STDOUT_FILENO
             (strnlen_prefix (launch_line (get_job_jid l' p) p) 1024) :: t)%list
     /\ existsb is_waitpid t = false) /\
  (~ In p (map pid (my_jobs initial_world)) ->
   get_job_jid l' p = next_job initial_world) /\
  (forall r w',
     run_prog busy_kernel sleep_argv sleep_tokens [0;0;0;1] initial_world
     = Return r w' ->
     my_jobs w' = l' /\ next_job w' = wrap_int (next_job initial_world + 1)).
Proof.
  apply (run_prog_background busy_kernel sleep_argv sleep_tokens [0;0;0;1]
           initial_world).
  - discriminate.
  - discriminate.
Defined.

Example run_prog_background_run :
  run_prog busy_kernel sleep_argv sleep_tokens [0;0;0;1] initial_world =
  Return 0 (mkW [mkJob 1 100 RUNNING (Some "/bin/sleep")] 2
              [SysFork; SysWrite STDOUT_FILENO ("[1] (100)" ++ nl);
               SysGetpgrp; SysTcsetpgrp STDIN_FILENO 102] []).
Proof. reflexivity. Qed.

Lemma run_prog_foreground_exit_witness :
  let p := sys_ret calm_kernel (List.length (trace one_job_world)) in
  final (run_prog calm_kernel sleep_argv sleep_tokens [0;0;0;0] one_job_world)
  = mkW (my_jobs one_job_world) (next_job one_job_world)
        (trace one_job_world ++
           [SysFork; SysWaitpid p WUNTRACED; SysGetpgrp;
            SysTcsetpgrp STDIN_FILENO
              (sys_ret calm_kernel (S (S (List.length (trace one_job_world)))))])
        (pending one_job_world).
Proof.
  apply (run_prog_foreground_exit calm_kernel sleep_argv sleep_tokens
           [0;0;0;0] one_job_world 0).
  - reflexivity.
  - discriminate.
  - reflexivity.
  - reflexivity.
Defined.

Lemma run_child_setup_order_witness :
  let pid := sys_ret quiet_kernel (List.length (trace initial_world)) in
  exists a0,
    aget sleep_argv 0 = Some a0 /\
    trace (final (run_child quiet_kernel sleep_argv
                    [Some ">"; Some "out"; Some "/bin/sleep"; Some "9"; None]
                    [0;1;0;0] 0 2 initial_world)) =
    (trace initial_world ++ [SysGetpid; SysSetpgid pid pid]
       ++ (if 0 =? 0 then [SysTcsetpgrp STDIN_FILENO pid] else [])
       ++ [SysSignal SIGINT SIG_DFL; SysSignal SIGTSTP SIG_DFL;
           SysSignal SIGTTOU SIG_DFL]
       ++ redirection_calls
            [Some ">"; Some "out"; Some "/bin/sleep"; Some "9"; None] [0;1;0;0]
       ++ [SysExecv (aget [Some ">"; Some "out"; Some "/bin/sleep"; Some "9";
                           None] (Z.to_nat 2))
             (c_vector (if strncmp_eq a0 "/" 1
                        then aset sleep_argv 0 (Some (str_tail a0))
                        else sleep_argv))])%list
    /\ my_jobs (final (run_child quiet_kernel sleep_argv
                         [Some ">"; Some "out"; Some "/bin/sleep"; Some "9";
                          None] [0;1;0;0] 0 2 initial_world))
       = my_jobs initial_world
    /\ next_job (final (run_child quiet_kernel sleep_argv
                          [Some ">"; Some "out"; Some "/bin/sleep"; Some "9";
                           None] [0;1;0;0] 0 2 initial_world))
       = next_job initial_world.
Proof.
  apply (run_child_setup_order quiet_kernel sleep_argv
           [Some ">"; Some "out"; Some "/bin/sleep"; Some "9"; None]
           [0;1;0;0] 0 2 initial_world).
  reflexivity.
Defined.

Example run_child_run :
  trace (final (run_child quiet_kernel sleep_argv
                  [Some ">"; Some "out"; Some "/bin/sleep"; Some "9"; None]
                  [0;1;0;0] 0 2 initial_world))
  = [SysGetpid; SysSetpgid 0 0; SysTcsetpgrp STDIN_FILENO 0;
     SysSignal SIGINT SIG_DFL; SysSignal SIGTSTP SIG_DFL;
     SysSignal SIGTTOU SIG_DFL;
     SysClose STDOUT_FILENO; SysOpen (Some "out") 577 384;
     SysExecv (Some "/bin/sleep") [Some "sleep"; Some "9"]].
Proof. reflexivity. Qed.

Lemma shell_exits_clean_witness :
  clean_exit (run_prog (mkK (fun n => if Nat.eqb n 0 then 77 else -1)
                            (fun _ => 0) (fun _ => ""))
                sleep_argv sleep_tokens [0;0;0;0] one_job_world).
Proof.
  apply (proj2 (proj2 (shell_exits_clean
                         (mkK (fun n => if Nat.eqb n 0 then 77 else -1)
                              (fun _ => 0) (fun _ => "")))) ).
  discriminate.
Defined.

Example failed_wait_exits_clean :
  run_prog (mkK (fun n => if Nat.eqb n 0 then 77 else -1)
                (fun _ => 0) (fun _ => ""))
    sleep_argv sleep_tokens [0;0;0;0] one_job_world
  = Exit 1 (mkW [] 2 [SysFork; SysWaitpid 77 WUNTRACED; SysPerror "wait"] []).
Proof. reflexivity. Qed.

Lemma drain_never_registers_witness :
  next_job (final (drain quiet_kernel two_pending_world))
  = next_job two_pending_world /\
  (forall j, In j (my_jobs (final (drain quiet_kernel two_pending_world))) ->
     exists j0, In j0 (my_jobs two_pending_world) /\
                jid j0 = jid j /\ pid j0 = pid j) /\
  (Forall (fun ps => 0 < fst ps) (pending two_pending_world) ->
   forall w1, drain quiet_kernel two_pending_world = Return tt w1 ->
              pending w1 = []).
Proof. exact (drain_never_registers quiet_kernel two_pending_world). Defined.

Lemma plain_command_exec_witness :
  exists t name,
    trace (final (let p := snd (Parsing.parse "/bin/ls -l" zeroed zeroed
                                  [0;0;0;0]) in
                  run_child quiet_kernel (Parsing.argv p) (Parsing.tokens p)
                    (Parsing.redir p) 0 (find_f_index (Parsing.redir p))
                    initial_world))
    = (t ++ [SysExecv (Some "/bin/ls") (Some name :: map Some ["-l"])])%list /\
    (starts_with_slash "/bin/ls" = false -> name = "/bin/ls") /\
    (starts_with_slash "/bin/ls" = true ->
     exists dir, "/bin/ls" = dir ++ String slash name /\
                 ~ In slash (list_ascii_of_string name)).
Proof.
  apply (plain_command_exec quiet_kernel "/bin/ls -l" "/bin/ls" ["-l"] 0
           initial_world).
  - reflexivity.
  - repeat constructor; discriminate.
  - simpl. lia.
  - reflexivity.
Defined.

Example plain_command_exec_run :
  let p := snd (Parsing.parse "/bin/ls -l" zeroed zeroed [0;0;0;0]) in
  trace (final (run_child quiet_kernel (Parsing.argv p) (Parsing.tokens p)
                  (Parsing.redir p) 0 (find_f_index (Parsing.redir p))
                  initial_world))
  = [SysGetpid; SysSetpgid 0 0; SysTcsetpgrp STDIN_FILENO 0;
     SysSignal SIGINT SIG_DFL; SysSignal SIGTSTP SIG_DFL;
     SysSignal SIGTTOU SIG_DFL;
     SysExecv (Some "/bin/ls") [Some "ls"; Some "-l"]].
Proof. reflexivity. Qed.

Lemma two_leading_redirections_witness :
  let p := snd (Parsing.parse "< in > out /bin/cat -n" zeroed zeroed
                  [0;0;0;0]) in
  fst (Parsing.parse "< in > out /bin/cat -n" zeroed zeroed [0;0;0;0]) = 2 /\
  aget (Parsing.tokens p) 4 = Some "/bin/cat" /\
  forall k bg w w',
    run_child k (Parsing.argv p) (Parsing.tokens p) (Parsing.redir p) bg
      (find_f_index (Parsing.redir p)) w = Exec w' ->
    exists t av, trace w' = (t ++ [SysExecv (Some ">") av])%list.
Proof.
  apply (two_leading_redirections "< in > out /bin/cat -n"
           "<" "in" ">" "out" "/bin/cat" ["-n"]).
  - reflexivity.
  - left. split; [reflexivity | left; reflexivity].
  - repeat constructor; discriminate.
  - simpl. lia.
Defined.

Example two_leading_redirections_run :
  let p := snd (Parsing.parse "< in > out /bin/cat -n" zeroed zeroed
                  [0;0;0;0]) in
  trace (final (run_child quiet_kernel (Parsing.argv p) (Parsing.tokens p)
                  (Parsing.redir p) 0 (find_f_index (Parsing.redir p))
                  initial_world))
  = [SysGetpid; SysSetpgid 0 0; SysTcsetpgrp STDIN_FILENO 0;
     SysSignal SIGINT SIG_DFL; SysSignal SIGTSTP SIG_DFL;
     SysSignal SIGTTOU SIG_DFL;
     SysClose STDIN_FILENO; SysOpen (Some "in") O_RDONLY 0;
     SysClose STDOUT_FILENO; SysOpen (Some "out") 577 384;
     SysExecv (Some ">") [Some "cat"; Some "-n"]].
Proof. reflexivity. Qed.
